(** * i2.c: a master-mode TWI (I2C) driver for AVR, embedded in Rocq

    The driver of [src/i2.c] talks to the two-wire peripheral through four
    memory-mapped 8-bit registers.  Every C function becomes a computation in
    a small state monad over a machine that holds the peripheral and a ghost
    log of what the driver did to it; the polling loop of
    [i2cAwaitCompletion] is bounded by a fuel argument, and running out of
    fuel is reported as an outcome of its own ([Spinning]). *)

From Stdlib Require Import ZArith List Bool Lia.
Import ListNotations.
Local Open Scope Z_scope.

(** ** Integer conversions of the target *)

(** Storing into a [uint8_t] object (every register is one). *)
Definition u8 (v : Z) : Z := v mod 256.

(** Arithmetic in [unsigned long], 32 bits wide on AVR. *)
Definition u32 (v : Z) : Z := v mod 4294967296.

(** ** Registers, peripheral and ghost log *)

Inductive reg : Type := TWBR | TWSR | TWDR | TWCR.

Definition reg_eqb (a b : reg) : bool :=
  match a, b with
  | TWBR, TWBR | TWSR, TWSR | TWDR, TWDR | TWCR, TWCR => true
  | _, _ => false
  end.

(** The registers are [volatile]: what a read returns is up to the hardware,
    and any access may advance the hardware's own state.  The driver is
    therefore written against an arbitrary peripheral. *)
Class Peripheral (dev : Type) : Type := {
  load : reg -> dev -> Z * dev;
  store : reg -> Z -> dev -> dev
}.

(** Ghost events: register reads and writes with the 8-bit value moved, and
    the comparisons made by [i2cCheckStatus] (the expected code and the masked
    status it was compared with).  No driver function ever reads the log. *)
Inductive event : Type :=
| EvRead (r : reg) (v : Z)
| EvWrite (r : reg) (v : Z)
| EvCheck (expected status : Z).

Record machine (dev : Type) : Type := Machine {
  hw : dev;
  log : list event
}.
Arguments Machine {dev} _ _.
Arguments hw {dev} _.
Arguments log {dev} _.

(** ** The monad *)

Inductive outcome (dev A : Type) : Type :=
| Done (a : A) (m : machine dev)      (* the call returned [a] *)
| Spinning (m : machine dev)          (* still polling when the fuel ran out *)
| Undefined.                          (* undefined behaviour in C *)
Arguments Done {dev A} _ _.
Arguments Spinning {dev A} _.
Arguments Undefined {dev A}.

Definition M (dev A : Type) : Type := machine dev -> outcome dev A.

Definition ret {dev A} (a : A) : M dev A := fun m => Done a m.

Definition bind {dev A B} (c : M dev A) (k : A -> M dev B) : M dev B :=
  fun m =>
    match c m with
    | Done a m' => k a m'
    | Spinning m' => Spinning m'
    | Undefined => Undefined
    end.

Definition undefined {dev A} : M dev A := fun _ => Undefined.

Declare Scope drv_scope.
Delimit Scope drv_scope with drv.
Notation "x <- c ;; k" := (bind c (fun x => k))
  (at level 61, c at next level, right associativity) : drv_scope.
Notation "c ;; k" := (bind c (fun _ => k))
  (at level 61, right associativity) : drv_scope.
Local Open Scope drv_scope.

(** ** What the build supplies *)

(** [F_CPU] comes from the build environment, as an integer constant that
    the division in [i2cInit] converts to [unsigned long].  [F_SCL] is fixed
    by [i2c.h] to [400000UL] (see [i2c_h]); it is kept as a field so that
    the clock formula can be stated for every bus clock.  Whether plain
    [char] is signed is the compiler's choice. *)
Class Build : Type := {
  F_CPU : Z;
  F_SCL : Z;
  char_signed : bool
}.

(** The status codes of [<util/twi.h>] (avr-libc), which [i2c.h] includes and
    which is not part of the repository: taken as parameters. *)
Class TwiHeader : Type := {
  TW_START : Z;
  TW_MT_SLA_ACK : Z;
  TW_MT_DATA_ACK : Z;
  TW_MR_SLA_ACK : Z
}.

(** [TW_STATUS_MASK = 0xF8], as the comment in [i2cCheckStatus] records. *)
Definition TW_STATUS_MASK : Z := 0xF8.

(** Conversion of an [int] to plain [char]. *)
Definition to_char `{Build} (v : Z) : Z :=
  if char_signed then (v + 128) mod 256 - 128 else v mod 256.

Section Driver.
Context {dev : Type} {Pd : Peripheral dev} {Bd : Build} {Th : TwiHeader}.

(** A volatile read of register [r]. *)
Definition sfr_read (r : reg) : M dev Z := fun m =>
  let (v, d) := load r (hw m) in
  Done (u8 v) (Machine d (log m ++ [EvRead r (u8 v)])).

(** [r = v;] *)
Definition sfr_write (r : reg) (v : Z) : M dev unit := fun m =>
  Done tt (Machine (store r (u8 v) (hw m)) (log m ++ [EvWrite r (u8 v)])).

(** Ghost: record a status comparison. *)
Definition note (e : event) : M dev unit := fun m =>
  Done tt (Machine (hw m) (log m ++ [e])).

(** [void i2cInit()] *)
Definition i2cInit : M dev unit :=
  sfr_write TWSR 0 ;;
  let scl8 := u32 (8 * u32 F_SCL) in
  if scl8 =? 0 then undefined
  else sfr_write TWBR (u32 (u32 F_CPU / scl8 - 2)).

(** [void i2cAwaitCompletion()]: [while (!(TWCR & 0x80));] *)
Fixpoint i2cAwaitCompletion (fuel : nat) : M dev unit :=
  match fuel with
  | O => fun m => Spinning m
  | S fuel' =>
      twcr <- sfr_read TWCR ;;
      if Z.land twcr 0x80 =? 0 then i2cAwaitCompletion fuel' else ret tt
  end.

(** [int i2cCheckStatus(char expectedStatus)];
    [TW_STATUS] is [(TWSR & TW_STATUS_MASK)]. *)
Definition i2cCheckStatus (expectedStatus : Z) : M dev Z :=
  twsr <- sfr_read TWSR ;;
  let tw_status := Z.land twsr TW_STATUS_MASK in
  note (EvCheck expectedStatus tw_status) ;;
  ret (if tw_status =? expectedStatus then 1 else 0).

(** [void i2cStart()] *)
Definition i2cStart (fuel : nat) : M dev unit :=
  sfr_write TWCR 0xA4 ;;
  i2cAwaitCompletion fuel ;;
  _ <- i2cCheckStatus (to_char TW_START) ;;
  ret tt.

(** [void i2cSendAddress(char address, int rw)] *)
Definition i2cSendAddress (fuel : nat) (address rw : Z) : M dev unit :=
  (if negb (rw =? 0)
   then sfr_write TWDR (Z.land (Z.shiftl address 1) 0xFE)
   else sfr_write TWDR (Z.lor (Z.shiftl address 1) 0x01)) ;;
  sfr_write TWCR 0x84 ;;
  i2cAwaitCompletion fuel ;;
  _ <- i2cCheckStatus (to_char TW_MT_SLA_ACK) ;;
  ret tt.

(** [void i2cSendByte(char byte)] *)
Definition i2cSendByte (fuel : nat) (byte : Z) : M dev unit :=
  sfr_write TWDR byte ;;
  sfr_write TWCR 0x84 ;;
  i2cAwaitCompletion fuel ;;
  _ <- i2cCheckStatus (to_char TW_MT_DATA_ACK) ;;
  ret tt.

(** The [for] loop of [i2cSendData] with [n] iterations left; [va_arg] on
    an exhausted argument list is undefined. *)
Fixpoint sendData_loop (fuel : nat) (n : nat) (valist : list Z) : M dev unit :=
  match n with
  | O => ret tt
  | S n' =>
      match valist with
      | [] => undefined
      | arg :: valist' =>
          i2cSendByte fuel (to_char arg) ;;
          sendData_loop fuel n' valist'
      end
  end.

(** [void i2cSendData(int argc, ...)] *)
Definition i2cSendData (fuel : nat) (argc : Z) (valist : list Z) : M dev unit :=
  sendData_loop fuel (Z.to_nat argc) valist.

(** [void i2cStop()] *)
Definition i2cStop : M dev unit :=
  sfr_write TWCR 0x94.

End Driver.

(** ** Reading the ghost log *)

(** The values written to register [r], oldest first. *)
Fixpoint writes_to (r : reg) (evs : list event) : list Z :=
  match evs with
  | [] => []
  | EvWrite r' v :: evs' =>
      if reg_eqb r r' then v :: writes_to r evs' else writes_to r evs'
  | _ :: evs' => writes_to r evs'
  end.

(** The status comparisons made, as (expected, masked status), oldest first. *)
Fixpoint checks_of (evs : list event) : list (Z * Z) :=
  match evs with
  | [] => []
  | EvCheck e s :: evs' => (e, s) :: checks_of evs'
  | _ :: evs' => checks_of evs'
  end.

(** Bit numbers of the control register, from the tables in [i2.c]:
    TWINT TWEA TWSTA TWSTO TWWC TWEN - TWIE are bits 7 down to 0. *)
Definition TWINT : Z := 7.
Definition TWSTA : Z := 5.
Definition TWSTO : Z := 4.
Definition TWEN : Z := 2.

(** A completed wait, seen in the log: reads of the control register, the
    completion flag clear in each but the last, and set in the last. *)
Inductive completion_wait : list event -> Prop :=
| wait_done v :
    Z.testbit v TWINT = true -> completion_wait [EvRead TWCR v]
| wait_again v evs :
    Z.testbit v TWINT = false -> completion_wait evs ->
    completion_wait (EvRead TWCR v :: evs).

Section Polling.
Context {dev : Type} {Pd : Peripheral dev}.

(** The peripheral after [n] consecutive reads of the control register. *)
Fixpoint after_polls (n : nat) (d : dev) : dev :=
  match n with
  | O => d
  | S n' => after_polls n' (snd (load TWCR d))
  end.

(** Whether the completion flag reads as set at poll number [k] (from 0)
    of a run of consecutive polls started on [d]. *)
Definition flag_at (k : nat) (d : dev) : bool :=
  Z.testbit (u8 (fst (load TWCR (after_polls k d)))) TWINT.

(** Poll [k] is the first one at which the flag reads as set. *)
Definition first_set_at (k : nat) (d : dev) : Prop :=
  flag_at k d = true /\ forall j, (j < k)%nat -> flag_at j d = false.

(** The machine after one read of the control register. *)
Definition polled (m : machine dev) : machine dev :=
  Machine (snd (load TWCR (hw m)))
          (log m ++ [EvRead TWCR (u8 (fst (load TWCR (hw m))))]).

(** The machine after [i2cCheckStatus e]: one read of the status register
    and the comparison. *)
Definition checked (e : Z) (m : machine dev) : machine dev :=
  Machine (snd (load TWSR (hw m)))
          (log m ++ [EvRead TWSR (u8 (fst (load TWSR (hw m))));
                     EvCheck e (Z.land (u8 (fst (load TWSR (hw m)))) TW_STATUS_MASK)]).

(** The common tail of [i2cStart], [i2cSendAddress] and [i2cSendByte]:
    wait for completion, compare the status with [e], drop the result. *)
Definition wait_then_check (fuel : nat) (e : Z) : M dev unit :=
  i2cAwaitCompletion fuel ;;
  _ <- i2cCheckStatus e ;;
  ret tt.
End Polling.

(** The byte [i2cSendAddress] stores into the data register. *)
Definition address_byte (address rw : Z) : Z :=
  u8 (if negb (rw =? 0)
      then Z.land (Z.shiftl address 1) 0xFE
      else Z.lor (Z.shiftl address 1) 0x01).

(** ** The spec's reading of [sendBytes] *)

(** One [i2cSendByte] call per byte, in order; each call converts its
    argument to the [char] parameter. *)
Fixpoint sendByte_each {dev : Type} `{Peripheral dev} `{Build} `{TwiHeader}
    (fuel : nat) (bytes : list Z) : M dev unit :=
  match bytes with
  | [] => ret tt
  | b :: bytes' => i2cSendByte fuel (to_char b) ;; sendByte_each fuel bytes'
  end.

(** ** Client programs *)

(** A call of one of the public operations other than [i2cInit]. *)
Inductive call : Type :=
| CallStart
| CallSendAddress (address rw : Z)
| CallAwaitCompletion
| CallCheckStatus (expectedStatus : Z)
| CallSendByte (byte : Z)
| CallSendData (argc : Z) (valist : list Z)
| CallStop.

Section Clients.
Context {dev : Type} {Pd : Peripheral dev} {Bd : Build} {Th : TwiHeader}.

Definition exec (fuel : nat) (c : call) : M dev unit :=
  match c with
  | CallStart => i2cStart fuel
  | CallSendAddress address rw => i2cSendAddress fuel address rw
  | CallAwaitCompletion => i2cAwaitCompletion fuel
  | CallCheckStatus e => _ <- i2cCheckStatus e ;; ret tt
  | CallSendByte byte => i2cSendByte fuel byte
  | CallSendData argc valist => i2cSendData fuel argc valist
  | CallStop => i2cStop
  end.

Fixpoint exec_all (fuel : nat) (cs : list call) : M dev unit :=
  match cs with
  | [] => ret tt
  | c :: cs' => exec fuel c ;; exec_all fuel cs'
  end.
End Clients.

(** ** A bench peripheral *)

(** A scripted stand-in for the hardware, used to run the driver on concrete
    inputs: the four register cells, the values the next reads of the control
    register return ([0] once the script is used up), and the status field
    the hardware reports.  A read of the status register yields the
    hardware's status in bits 7..3 and the stored prescaler in bits 1..0. *)
Record bench : Type := Bench {
  r_twbr : Z;
  r_twsr : Z;
  r_twdr : Z;
  r_twcr : Z;
  polls : list Z;
  status : Z
}.

Definition bench_load (r : reg) (b : bench) : Z * bench :=
  match r with
  | TWBR => (r_twbr b, b)
  | TWSR => (Z.lor (Z.land (status b) 0xF8) (Z.land (r_twsr b) 0x03), b)
  | TWDR => (r_twdr b, b)
  | TWCR =>
      match polls b with
      | [] => (0, b)
      | v :: rest =>
          (v, Bench (r_twbr b) (r_twsr b) (r_twdr b) (r_twcr b) rest (status b))
      end
  end.

Definition bench_store (r : reg) (v : Z) (b : bench) : bench :=
  match r with
  | TWBR => Bench v (r_twsr b) (r_twdr b) (r_twcr b) (polls b) (status b)
  | TWSR => Bench (r_twbr b) v (r_twdr b) (r_twcr b) (polls b) (status b)
  | TWDR => Bench (r_twbr b) (r_twsr b) v (r_twcr b) (polls b) (status b)
  | TWCR => Bench (r_twbr b) (r_twsr b) (r_twdr b) v (polls b) (status b)
  end.

#[export] Instance bench_peripheral : Peripheral bench :=
  {| load := bench_load; store := bench_store |}.

(** The prescaler bits TWPS1..0 of the bench's status register. *)
Definition bench_prescaler (b : bench) : Z := Z.land (r_twsr b) 0x03.

(** The build of [i2c.h]: [F_SCL] is [400000UL]; avr-gcc's plain [char] is
    signed unless told otherwise. *)
Definition i2c_h (f_cpu : Z) : Build :=
  {| F_CPU := f_cpu; F_SCL := 400000; char_signed := true |}.

(** The values avr-libc gives the status codes. *)
Definition avr_libc : TwiHeader :=
  {| TW_START := 0x08; TW_MT_SLA_ACK := 0x18; TW_MT_DATA_ACK := 0x28;
     TW_MR_SLA_ACK := 0x40 |}.

(** A build with a bus clock other than the header's. *)
Definition slow_bus : Build :=
  {| F_CPU := 16000000; F_SCL := 5000; char_signed := true |}.

(** A powered-up bench: all cells zero, the given poll script and status. *)
Definition bench_init (script : list Z) (st : Z) : machine bench :=
  Machine (Bench 0 0 0 0 script st) [].

(** The log of an outcome (empty when the behaviour is undefined). *)
Definition log_of {dev A} (o : outcome dev A) : list event :=
  match o with
  | Done _ m | Spinning m => log m
  | Undefined => []
  end.

(** ** Frame conditions *)

(** [c] relates the machine it starts on to the one it ends on by [R],
    whether it returns or is still polling when the fuel runs out. *)
Definition respects {dev A : Type} (R : machine dev -> machine dev -> Prop)
    (c : M dev A) : Prop :=
  forall m,
    match c m with
    | Done _ m' | Spinning m' => R m m'
    | Undefined => True
    end.

(** The observation [obs] of the peripheral is as it was, and neither the
    divisor register nor the status register has been written. *)
Definition clock_untouched {dev T : Type} (obs : dev -> T)
    (m m' : machine dev) : Prop :=
  obs (hw m') = obs (hw m) /\
  exists evs, log m' = log m ++ evs /\
              writes_to TWBR evs = [] /\ writes_to TWSR evs = [].

(** No status comparison made between [m] and [m'] expected [code]. *)
Definition never_expects {dev : Type} (code : Z) (m m' : machine dev) : Prop :=
  exists evs, log m' = log m ++ evs /\ ~ In code (map fst (checks_of evs)).

(** [c] has defined behaviour on every machine. *)
Definition defined {dev A : Type} (c : M dev A) : Prop :=
  forall m, c m <> Undefined.

(** Every [i2cSendData] call of a client passes at least [argc] arguments. *)
Definition enough_arguments (cs : list call) : Prop :=
  forall argc valist,
    In (CallSendData argc valist) cs -> (Z.to_nat argc <= length valist)%nat.

(** The codes the driver passes to [i2cCheckStatus] are representable in
    plain [char], whichever its signedness. *)
Definition codes_fit_char `{TwiHeader} : Prop :=
  0 <= TW_START < 128 /\ 0 <= TW_MT_SLA_ACK < 128 /\ 0 <= TW_MT_DATA_ACK < 128.

(** The master-receiver code is none of the codes the driver names. *)
Definition mr_code_distinct `{TwiHeader} : Prop :=
  TW_MR_SLA_ACK <> TW_START /\ TW_MR_SLA_ACK <> TW_MT_SLA_ACK /\
  TW_MR_SLA_ACK <> TW_MT_DATA_ACK.

(** ** The driver's footprint *)

(** The register writes in a log, as (register, value), oldest first. *)
Fixpoint writes_of (evs : list event) : list (reg * Z) :=
  match evs with
  | [] => []
  | EvWrite r v :: evs' => (r, v) :: writes_of evs'
  | _ :: evs' => writes_of evs'
  end.

(** The registers read in a log, oldest first. *)
Fixpoint reads_of (evs : list event) : list reg :=
  match evs with
  | [] => []
  | EvRead r _ :: evs' => r :: reads_of evs'
  | _ :: evs' => reads_of evs'
  end.

(** The accesses found in the bodies of the operations other than
    [i2cInit]: reads of the control and status registers, byte stores into
    the data register, and the three control patterns. *)
Definition driver_event (e : event) : bool :=
  match e with
  | EvRead TWCR _ | EvRead TWSR _ => true
  | EvRead _ _ => false
  | EvWrite TWDR v => (0 <=? v) && (v <? 256)
  | EvWrite TWCR v => (v =? 0xA4) || (v =? 0x84) || (v =? 0x94)
  | EvWrite _ _ => false
  | EvCheck _ _ => true
  end.

(** The log has grown from [m] to [m'] by such accesses only. *)
Definition within_footprint {dev : Type} (m m' : machine dev) : Prop :=
  exists evs, log m' = log m ++ evs /\ forallb driver_event evs = true.

(** Bits 6 and 0 of the control register, from the same tables as above:
    acknowledge enable and interrupt enable. *)
Definition TWEA : Z := 6.
Definition TWIE : Z := 0.

(** What one byte costs: the store into the data register and the transmit
    pattern. *)
Definition transmit (byte : Z) : list (reg * Z) :=
  [(TWDR, byte); (TWCR, 0x84)].

(** The register writes a call is written to make, in order. *)
Definition issued (c : call) : list (reg * Z) :=
  match c with
  | CallStart => [(TWCR, 0xA4)]
  | CallSendAddress address rw => transmit (address_byte address rw)
  | CallAwaitCompletion => []
  | CallCheckStatus _ => []
  | CallSendByte byte => transmit (u8 byte)
  | CallSendData argc valist =>
      flat_map (fun arg => transmit (u8 arg)) (firstn (Z.to_nat argc) valist)
  | CallStop => [(TWCR, 0x94)]
  end.

(** A peripheral that reports every command complete within [n] polls of
    the control register. *)
Definition responsive {dev : Type} `{Peripheral dev} (n : nat) : Prop :=
  forall v d, exists k, (k < n)%nat /\ first_set_at k (store TWCR v d).

(** A bench whose control register always reads with the completion flag
    set. *)
Definition eager_load (r : reg) (b : bench) : Z * bench :=
  match r with
  | TWCR => (Z.lor (r_twcr b) 0x80, b)
  | _ => bench_load r b
  end.

Definition eager_bench : Peripheral bench :=
  {| load := eager_load; store := bench_store |}.

(** A build whose plain [char] is unsigned (avr-gcc's [-funsigned-char]). *)
Definition i2c_h_unsigned_char (f_cpu : Z) : Build :=
  {| F_CPU := f_cpu; F_SCL := 400000; char_signed := false |}.

(** * Facts *)

(** ** Bytes *)

Lemma forall_u8 (P : Z -> bool) :
  forallb P (map Z.of_nat (seq 0 256)) = true ->
  forall v, 0 <= v < 256 -> P v = true.
Proof.
  intros Hall v Hv. rewrite forallb_forall in Hall. apply Hall.
  apply in_map_iff. exists (Z.to_nat v). split; [lia|].
  apply in_seq. lia.
Qed.

Lemma u8_range v : 0 <= u8 v < 256.
Proof. unfold u8. apply Z.mod_pos_bound. lia. Qed.

Lemma u8_small v : 0 <= v < 256 -> u8 v = v.
Proof. intros. unfold u8. apply Z.mod_small. assumption. Qed.

Lemma u8_to_char `{Build} v : u8 (to_char v) = u8 v.
Proof.
  unfold to_char, u8. destruct char_signed.
  - pose proof (Z.div_mod (v + 128) 256 ltac:(lia)) as Hdm.
    replace ((v + 128) mod 256 - 128) with (v + - ((v + 128) / 256) * 256) by lia.
    apply Z_mod_plus_full.
  - apply Z.mod_mod. lia.
Qed.

Lemma to_char_small `{Build} v : 0 <= v < 128 -> to_char v = v.
Proof.
  intros Hv. unfold to_char. destruct char_signed.
  - rewrite Z.mod_small; lia.
  - apply Z.mod_small. lia.
Qed.

(** The loop test of [i2cAwaitCompletion] reads bit 7. *)
Lemma land_0x80 v : (Z.land v 0x80 =? 0) = negb (Z.testbit v TWINT).
Proof.
  unfold TWINT. destruct (Z.testbit v 7) eqn:E; simpl.
  - apply Z.eqb_neq. intros Hz.
    assert (Hb : Z.testbit (Z.land v 128) 7 = true)
      by (rewrite Z.land_spec, E; reflexivity).
    rewrite Hz, Z.bits_0 in Hb. discriminate.
  - apply Z.eqb_eq. apply Z.bits_inj'. intros n Hn.
    rewrite Z.land_spec, Z.bits_0.
    destruct (Z.eq_dec n 7) as [->|Hne].
    + rewrite E. reflexivity.
    + change 128 with (2 ^ 7). rewrite Z.pow2_bits_false by lia.
      apply andb_false_r.
Qed.

(** Masking with [0xF8] keeps bits 7..3 of a byte and clears bits 2..0. *)
Lemma status_mask_top5 v :
  0 <= v < 256 -> Z.land v TW_STATUS_MASK = Z.shiftl (Z.shiftr v 3) 3.
Proof.
  intros Hv. apply Z.eqb_eq.
  apply (forall_u8 (fun x => Z.land x TW_STATUS_MASK =? Z.shiftl (Z.shiftr x 3) 3));
    [vm_compute; reflexivity | assumption].
Qed.

(** Address packing on a 7-bit address. *)
Lemma pack_write_bit address :
  0 <= address < 128 -> u8 (Z.land (Z.shiftl address 1) 0xFE) = 2 * address.
Proof.
  intros Ha.
  assert (Hb : implb (address <? 128)
                 (u8 (Z.land (Z.shiftl address 1) 0xFE) =? 2 * address) = true)
    by (apply (forall_u8 (fun a => implb (a <? 128)
                  (u8 (Z.land (Z.shiftl a 1) 0xFE) =? 2 * a)));
        [vm_compute; reflexivity | lia]).
  replace (address <? 128) with true in Hb by (symmetry; apply Z.ltb_lt; lia).
  apply Z.eqb_eq. exact Hb.
Qed.

Lemma pack_read_bit address :
  0 <= address < 128 -> u8 (Z.lor (Z.shiftl address 1) 0x01) = 2 * address + 1.
Proof.
  intros Ha.
  assert (Hb : implb (address <? 128)
                 (u8 (Z.lor (Z.shiftl address 1) 0x01) =? 2 * address + 1) = true)
    by (apply (forall_u8 (fun a => implb (a <? 128)
                  (u8 (Z.lor (Z.shiftl a 1) 0x01) =? 2 * a + 1)));
        [vm_compute; reflexivity | lia]).
  replace (address <? 128) with true in Hb by (symmetry; apply Z.ltb_lt; lia).
  apply Z.eqb_eq. exact Hb.
Qed.

(** ** The ghost log *)

Lemma writes_to_app r evs1 evs2 :
  writes_to r (evs1 ++ evs2) = writes_to r evs1 ++ writes_to r evs2.
Proof.
  induction evs1 as [|e evs1 IH]; [reflexivity|].
  destruct e as [r' v|r' v|e s]; simpl; try exact IH.
  destruct (reg_eqb r r'); simpl; now rewrite IH.
Qed.

Lemma checks_of_app evs1 evs2 :
  checks_of (evs1 ++ evs2) = checks_of evs1 ++ checks_of evs2.
Proof.
  induction evs1 as [|e evs1 IH]; [reflexivity|].
  destruct e; simpl; now rewrite IH.
Qed.

Lemma wait_no_writes evs r : completion_wait evs -> writes_to r evs = [].
Proof. induction 1; simpl; auto. Qed.

Lemma wait_no_checks evs : completion_wait evs -> checks_of evs = [].
Proof. induction 1; simpl; auto. Qed.

(** ** Running the monad *)

Section Runs.
Context {dev : Type} {Pd : Peripheral dev} {Bd : Build} {Th : TwiHeader}.

Lemma bind_done {A B} (c : M dev A) (k : A -> M dev B) m b m2 :
  bind c k m = Done b m2 ->
  exists a m1, c m = Done a m1 /\ k a m1 = Done b m2.
Proof.
  unfold bind. destruct (c m) as [a m1|m1|]; try discriminate. eauto.
Qed.

Lemma sfr_read_eq r m :
  sfr_read r m =
  Done (u8 (fst (load r (hw m))))
       (Machine (snd (load r (hw m)))
                (log m ++ [EvRead r (u8 (fst (load r (hw m))))])).
Proof. unfold sfr_read. destruct (load r (hw m)). reflexivity. Qed.

Lemma check_status_eq e m :
  i2cCheckStatus e m =
  Done (if Z.land (u8 (fst (load TWSR (hw m)))) TW_STATUS_MASK =? e then 1 else 0)
       (Machine (snd (load TWSR (hw m)))
                (log m ++ [EvRead TWSR (u8 (fst (load TWSR (hw m))));
                           EvCheck e (Z.land (u8 (fst (load TWSR (hw m)))) TW_STATUS_MASK)])).
Proof.
  unfold i2cCheckStatus, bind. rewrite sfr_read_eq. unfold note, ret. simpl.
  rewrite <- app_assoc. reflexivity.
Qed.

(** *** The polling loop *)

Lemma await_step fuel m :
  i2cAwaitCompletion (S fuel) m =
  if flag_at 0 (hw m) then Done tt (polled m)
  else i2cAwaitCompletion fuel (polled m).
Proof.
  change (i2cAwaitCompletion (S fuel) m)
    with (bind (sfr_read TWCR)
               (fun twcr => if Z.land twcr 0x80 =? 0
                            then i2cAwaitCompletion fuel else ret tt) m).
  unfold bind. rewrite sfr_read_eq, land_0x80.
  unfold flag_at, polled, after_polls.
  destruct (Z.testbit (u8 (fst (load TWCR (hw m)))) TWINT); reflexivity.
Qed.

Lemma first_set_at_S k d :
  first_set_at (S k) d <->
  flag_at 0 d = false /\ first_set_at k (snd (load TWCR d)).
Proof.
  unfold first_set_at. split.
  - intros [Hk Hlt]. split; [apply Hlt; lia|]. split; [exact Hk|].
    intros j Hj. apply (Hlt (S j)). lia.
  - intros [H0 [Hk Hlt]]. split; [exact Hk|].
    intros [|j] Hj; [exact H0|]. apply (Hlt j). lia.
Qed.

(** Every prefix of polls either contains a first set flag or is all clear. *)
Lemma polls_cases fuel : forall d,
  (exists k, (k < fuel)%nat /\ first_set_at k d) \/
  (forall j, (j < fuel)%nat -> flag_at j d = false).
Proof.
  induction fuel as [|fuel IH]; intros d.
  - right. intros j Hj. lia.
  - destruct (flag_at 0 d) eqn:E0.
    + left. exists 0%nat. split; [lia|]. split; [exact E0|]. intros j Hj. lia.
    + destruct (IH (snd (load TWCR d))) as [[k [Hk Hfs]]|Hclear].
      * left. exists (S k). split; [lia|]. apply first_set_at_S. auto.
      * right. intros [|j] Hj; [exact E0|]. apply (Hclear j). lia.
Qed.

(** With the first set flag at poll [k] and more than [k] polls of fuel,
    the loop returns after exactly [k + 1] reads. *)
Lemma await_first k : forall m fuel,
  first_set_at k (hw m) -> (k < fuel)%nat ->
  exists evs,
    completion_wait evs /\ length evs = S k /\
    i2cAwaitCompletion fuel m =
    Done tt (Machine (after_polls (S k) (hw m)) (log m ++ evs)).
Proof.
  induction k as [|k IH]; intros m fuel Hfs Hlt;
    (destruct fuel as [|fuel]; [lia|]); rewrite await_step.
  - destruct Hfs as [H0 _]. rewrite H0.
    exists [EvRead TWCR (u8 (fst (load TWCR (hw m))))].
    split; [constructor; exact H0|]. split; reflexivity.
  - apply first_set_at_S in Hfs. destruct Hfs as [H0 Hfs]. rewrite H0.
    destruct (IH (polled m) fuel Hfs ltac:(lia)) as [evs [Hw [Hlen Hrun]]].
    exists (EvRead TWCR (u8 (fst (load TWCR (hw m)))) :: evs).
    split; [constructor; assumption|]. split; [simpl; lia|].
    rewrite Hrun. unfold polled. simpl. rewrite <- app_assoc. reflexivity.
Qed.

(** While every poll reads the flag clear the loop is still spinning, and
    has done nothing but read the control register. *)
Lemma await_clear fuel : forall m,
  (forall j, (j < fuel)%nat -> flag_at j (hw m) = false) ->
  exists vs,
    length vs = fuel /\ Forall (fun v => Z.testbit v TWINT = false) vs /\
    i2cAwaitCompletion fuel m =
    Spinning (Machine (after_polls fuel (hw m))
                      (log m ++ map (EvRead TWCR) vs)).
Proof.
  induction fuel as [|fuel IH]; intros m Hclear.
  - exists []. simpl. rewrite app_nil_r. destruct m; auto.
  - rewrite await_step. pose proof (Hclear 0%nat ltac:(lia)) as H0. rewrite H0.
    destruct (IH (polled m)) as [vs [Hlen [Hall Hrun]]].
    { intros j Hj. apply (Hclear (S j)). lia. }
    exists (u8 (fst (load TWCR (hw m))) :: vs).
    split; [simpl; lia|]. split; [constructor; assumption|].
    rewrite Hrun. unfold polled. simpl. rewrite <- app_assoc. reflexivity.
Qed.

(** A returned wait saw a first set flag within its fuel. *)
Lemma await_done fuel m a m' :
  i2cAwaitCompletion fuel m = Done a m' ->
  exists k evs,
    (k < fuel)%nat /\ first_set_at k (hw m) /\
    completion_wait evs /\ length evs = S k /\
    m' = Machine (after_polls (S k) (hw m)) (log m ++ evs).
Proof.
  intros Hrun. destruct (polls_cases fuel (hw m)) as [[k [Hk Hfs]]|Hclear].
  - destruct (await_first k m fuel Hfs Hk) as [evs [Hw [Hlen Hrun']]].
    rewrite Hrun' in Hrun. injection Hrun as _ <-.
    exists k, evs. auto.
  - destruct (await_clear fuel m Hclear) as [vs [_ [_ Hrun']]].
    rewrite Hrun' in Hrun. discriminate.
Qed.

End Runs.

(** ** Write, wait, check *)

Section Transmit.
Context {dev : Type} {Pd : Peripheral dev} {Bd : Build} {Th : TwiHeader}.

(** The tail either sees a first set flag within its fuel, and returns
    after the comparison, or reads the flag clear until the fuel is gone. *)
Lemma wait_then_check_run fuel e m :
  (exists k wait,
      (k < fuel)%nat /\ first_set_at k (hw m) /\
      completion_wait wait /\ length wait = S k /\
      wait_then_check fuel e m =
      Done tt (checked e (Machine (after_polls (S k) (hw m)) (log m ++ wait)))) \/
  ((forall j, (j < fuel)%nat -> flag_at j (hw m) = false) /\
   exists vs,
     length vs = fuel /\
     wait_then_check fuel e m =
     Spinning (Machine (after_polls fuel (hw m))
                       (log m ++ map (EvRead TWCR) vs))).
Proof.
  unfold wait_then_check, bind.
  destruct (polls_cases fuel (hw m)) as [[k [Hk Hfs]]|Hclear].
  - left. destruct (await_first k m fuel Hfs Hk) as [wait [Hw [Hlen Hrun]]].
    exists k, wait. rewrite Hrun, check_status_eq. auto.
  - right. split; [exact Hclear|].
    destruct (await_clear fuel m Hclear) as [vs [Hlen [_ Hrun]]].
    exists vs. rewrite Hrun. auto.
Qed.

Lemma wait_then_check_done fuel e m a m' :
  wait_then_check fuel e m = Done a m' ->
  exists k wait,
    (k < fuel)%nat /\ first_set_at k (hw m) /\
    completion_wait wait /\ length wait = S k /\
    m' = checked e (Machine (after_polls (S k) (hw m)) (log m ++ wait)).
Proof.
  intros Hrun.
  destruct (wait_then_check_run fuel e m)
    as [[k [wait [Hk [Hfs [Hw [Hlen Hrun']]]]]]|[_ [vs [_ Hrun']]]];
    rewrite Hrun' in Hrun; [|discriminate].
  injection Hrun as <-. exists k, wait. auto.
Qed.

Lemma start_eq fuel m :
  i2cStart fuel m =
  wait_then_check fuel (to_char TW_START)
    (Machine (store TWCR 0xA4 (hw m)) (log m ++ [EvWrite TWCR 0xA4])).
Proof. reflexivity. Qed.

Lemma send_byte_eq fuel byte m :
  i2cSendByte fuel byte m =
  wait_then_check fuel (to_char TW_MT_DATA_ACK)
    (Machine (store TWCR 0x84 (store TWDR (u8 byte) (hw m)))
             (log m ++ [EvWrite TWDR (u8 byte); EvWrite TWCR 0x84])).
Proof.
  unfold i2cSendByte, bind at 1 2, sfr_write. cbn [hw log].
  rewrite <- app_assoc. reflexivity.
Qed.

Lemma send_address_eq fuel address rw m :
  i2cSendAddress fuel address rw m =
  wait_then_check fuel (to_char TW_MT_SLA_ACK)
    (Machine (store TWCR 0x84 (store TWDR (address_byte address rw) (hw m)))
             (log m ++ [EvWrite TWDR (address_byte address rw);
                        EvWrite TWCR 0x84])).
Proof.
  unfold i2cSendAddress, address_byte, bind at 1 2, sfr_write.
  destruct (negb (rw =? 0)); cbn [hw log];
    rewrite <- app_assoc; reflexivity.
Qed.

(** The log of a returned transmit: the writes [pre], the wait, the
    status read and the comparison. *)
Lemma checked_log e d pre wait (l : list event) :
  log (checked e (Machine d ((l ++ pre) ++ wait))) =
  l ++ pre ++ wait ++
    [EvRead TWSR (u8 (fst (load TWSR d)));
     EvCheck e (Z.land (u8 (fst (load TWSR d))) TW_STATUS_MASK)].
Proof. unfold checked. cbn [hw log]. now rewrite <- !app_assoc. Qed.

Lemma address_byte_7bit address rw :
  0 <= address < 128 ->
  address_byte address rw = 2 * address + (if rw =? 0 then 1 else 0).
Proof.
  intros Ha. unfold address_byte. destruct (rw =? 0); simpl negb; cbv iota.
  - apply pack_read_bit. exact Ha.
  - rewrite pack_write_bit by exact Ha. lia.
Qed.

Lemma send_data_is_each fuel bytes : forall m,
  sendData_loop fuel (length bytes) bytes m = sendByte_each fuel bytes m.
Proof.
  induction bytes as [|b bytes IH]; intros m; [reflexivity|].
  cbn [length sendData_loop sendByte_each]. unfold bind.
  destruct (i2cSendByte fuel (to_char b) m); auto.
Qed.

(** A returned [sendByte_each] has stored every byte, in order, and has
    compared the status with the data-acknowledged code once per byte. *)
Lemma send_each_done fuel bytes : forall m a m',
  sendByte_each fuel bytes m = Done a m' ->
  exists evs,
    log m' = log m ++ evs /\
    writes_to TWDR evs = map u8 bytes /\
    map fst (checks_of evs) = repeat (to_char TW_MT_DATA_ACK) (length bytes).
Proof.
  induction bytes as [|b bytes IH]; intros m a m' Hrun.
  - injection Hrun as _ <-. exists []. now rewrite app_nil_r.
  - cbn [sendByte_each] in Hrun. apply bind_done in Hrun.
    destruct Hrun as [a1 [m1 [Hb Hrest]]].
    rewrite send_byte_eq in Hb. apply wait_then_check_done in Hb.
    destruct Hb as [k [wait [_ [_ [Hw [_ ->]]]]]].
    destruct (IH _ _ _ Hrest) as [evs [Hlog [Hwr Hck]]].
    rewrite Hlog. cbn [hw log]. rewrite checked_log.
    eexists. rewrite <- !app_assoc. split; [reflexivity|].
    rewrite !writes_to_app, !checks_of_app, !map_app.
    rewrite (wait_no_writes wait TWDR Hw), (wait_no_checks wait Hw).
    cbn [writes_to checks_of reg_eqb map app length repeat fst].
    rewrite Hwr, Hck, u8_to_char. split; reflexivity.
Qed.

(** With the completion flag first read set at poll [k], and more fuel
    than that, [i2cSendAddress] returns. *)
Lemma send_address_returns fuel address rw m k :
  first_set_at k (store TWCR 0x84 (store TWDR (address_byte address rw) (hw m))) ->
  (k < fuel)%nat ->
  exists m', i2cSendAddress fuel address rw m = Done tt m'.
Proof.
  intros Hfs Hk. rewrite send_address_eq.
  destruct (wait_then_check_run fuel (to_char TW_MT_SLA_ACK)
              (Machine (store TWCR 0x84 (store TWDR (address_byte address rw) (hw m)))
                       (log m ++ [EvWrite TWDR (address_byte address rw);
                                  EvWrite TWCR 0x84])))
    as [[k' [wait [_ [_ [_ [_ Hrun]]]]]]|[Hclear _]]; [eauto|].
  cbn [hw] in Hclear. destruct Hfs as [Hset _].
  rewrite Hclear in Hset by exact Hk. discriminate.
Qed.

End Transmit.

(** ** Defined behaviour *)

Section Definedness.
Context {dev : Type} {Pd : Peripheral dev} {Bd : Build} {Th : TwiHeader}.

Lemma defined_ret {A} (a : A) : defined (@ret dev A a).
Proof. intros m. discriminate. Qed.

Lemma defined_bind {A B} (c : M dev A) (k : A -> M dev B) :
  defined c -> (forall a, defined (k a)) -> defined (bind c k).
Proof.
  intros Hc Hk m. unfold bind. specialize (Hc m).
  destruct (c m) as [a m1|m1|]; [apply Hk|discriminate|congruence].
Qed.

Lemma defined_read r : defined (sfr_read r).
Proof. intros m. rewrite sfr_read_eq. discriminate. Qed.

Lemma defined_write r v : defined (sfr_write r v).
Proof. intros m. discriminate. Qed.

Lemma defined_await fuel : defined (i2cAwaitCompletion fuel).
Proof.
  induction fuel as [|fuel IH]; [intros m; discriminate|].
  cbn [i2cAwaitCompletion]. apply defined_bind; [apply defined_read|].
  intros twcr. destruct (Z.land twcr 128 =? 0); [exact IH|apply defined_ret].
Qed.

Lemma defined_check e : defined (i2cCheckStatus e).
Proof. intros m. rewrite check_status_eq. discriminate. Qed.

Lemma defined_tail fuel e : defined (wait_then_check fuel e).
Proof.
  apply defined_bind; [apply defined_await|]. intros _.
  apply defined_bind; [apply defined_check|]. intros; apply defined_ret.
Qed.

Lemma defined_send_byte fuel byte : defined (i2cSendByte fuel byte).
Proof.
  unfold i2cSendByte. repeat (apply defined_bind; [apply defined_write|intros _]).
  apply defined_tail.
Qed.

Lemma defined_send_loop fuel n : forall valist,
  (n <= length valist)%nat -> defined (sendData_loop fuel n valist).
Proof.
  induction n as [|n IH]; intros valist Hn; [apply defined_ret|].
  destruct valist as [|arg valist]; [simpl in Hn; lia|].
  cbn [sendData_loop]. apply defined_bind; [apply defined_send_byte|].
  intros _. apply IH. simpl in Hn. lia.
Qed.

Lemma defined_exec fuel c :
  (forall argc valist, c = CallSendData argc valist ->
                       (Z.to_nat argc <= length valist)%nat) ->
  defined (exec fuel c).
Proof.
  intros Hc. destruct c; cbn [exec].
  - unfold i2cStart. apply defined_bind; [apply defined_write|intros _].
    apply defined_tail.
  - unfold i2cSendAddress.
    apply defined_bind; [destruct (negb (rw =? 0)); apply defined_write|intros _].
    apply defined_bind; [apply defined_write|intros _]. apply defined_tail.
  - apply defined_await.
  - apply defined_bind; [apply defined_check|intros; apply defined_ret].
  - apply defined_send_byte.
  - apply defined_send_loop. now apply Hc.
  - apply defined_write.
Qed.

Lemma defined_exec_all fuel cs :
  enough_arguments cs -> defined (exec_all fuel cs).
Proof.
  induction cs as [|c cs IH]; intros Hcs; [apply defined_ret|].
  cbn [exec_all]. apply defined_bind.
  - apply defined_exec. intros argc valist ->. apply Hcs. now left.
  - intros _. apply IH. intros argc valist Hin. apply Hcs. now right.
Qed.

End Definedness.

(** ** Relations kept by every operation but [i2cInit] *)

Section Invariants.
Context {dev : Type} {Pd : Peripheral dev} {Bd : Build} {Th : TwiHeader}.

Variable R : machine dev -> machine dev -> Prop.
Variable okc : Z -> Prop.

Hypothesis R_refl : forall m, R m m.
Hypothesis R_trans : forall m1 m2 m3, R m1 m2 -> R m2 m3 -> R m1 m3.
Hypothesis R_load : forall r m,
  R m (Machine (snd (load r (hw m)))
               (log m ++ [EvRead r (u8 (fst (load r (hw m))))])).
Hypothesis R_store : forall r v m,
  r = TWDR \/ r = TWCR ->
  R m (Machine (store r v (hw m)) (log m ++ [EvWrite r v])).
Hypothesis R_check : forall e s m,
  okc e -> R m (Machine (hw m) (log m ++ [EvCheck e s])).
Hypothesis okc_start : okc (to_char TW_START).
Hypothesis okc_sla : okc (to_char TW_MT_SLA_ACK).
Hypothesis okc_data : okc (to_char TW_MT_DATA_ACK).

Lemma respects_ret {A} (a : A) : respects R (ret a).
Proof. intros m. apply R_refl. Qed.

Lemma respects_bind {A B} (c : M dev A) (k : A -> M dev B) :
  respects R c -> (forall a, respects R (k a)) -> respects R (bind c k).
Proof.
  intros Hc Hk m. unfold bind. specialize (Hc m).
  destruct (c m) as [a m1|m1|]; auto.
  specialize (Hk a m1). destruct (k a m1); eauto.
Qed.

Lemma respects_read r : respects R (sfr_read r).
Proof. intros m. rewrite sfr_read_eq. apply R_load. Qed.

Lemma respects_write r v : r = TWDR \/ r = TWCR -> respects R (sfr_write r v).
Proof. intros Hr m. apply R_store. exact Hr. Qed.

Lemma respects_await fuel : respects R (i2cAwaitCompletion fuel).
Proof.
  induction fuel as [|fuel IH]; [intros m; apply R_refl|].
  cbn [i2cAwaitCompletion]. apply respects_bind; [apply respects_read|].
  intros twcr. destruct (Z.land twcr 128 =? 0); [exact IH|apply respects_ret].
Qed.

Lemma respects_check e : okc e -> respects R (i2cCheckStatus e).
Proof.
  intros He. unfold i2cCheckStatus.
  apply respects_bind; [apply respects_read|]. intros twsr.
  apply respects_bind; [|intros; apply respects_ret].
  intros m. apply R_check. exact He.
Qed.

Lemma respects_tail fuel e : okc e -> respects R (wait_then_check fuel e).
Proof.
  intros He. apply respects_bind; [apply respects_await|]. intros _.
  apply respects_bind; [apply respects_check, He|]. intros; apply respects_ret.
Qed.

Lemma respects_send_byte fuel byte : respects R (i2cSendByte fuel byte).
Proof.
  unfold i2cSendByte. repeat (apply respects_bind; [apply respects_write; auto|intros _]).
  apply respects_tail, okc_data.
Qed.

Lemma respects_send_loop fuel n : forall valist,
  respects R (sendData_loop fuel n valist).
Proof.
  induction n as [|n IH]; intros valist; [apply respects_ret|].
  destruct valist as [|arg valist]; [intros m; exact I|].
  cbn [sendData_loop]. apply respects_bind; [apply respects_send_byte|].
  intros _. apply IH.
Qed.

Lemma respects_exec fuel c :
  (forall e, c = CallCheckStatus e -> okc e) -> respects R (exec fuel c).
Proof.
  intros Hc. destruct c; cbn [exec].
  - unfold i2cStart. apply respects_bind; [apply respects_write; auto|intros _].
    apply respects_tail, okc_start.
  - unfold i2cSendAddress.
    apply respects_bind; [destruct (negb (rw =? 0)); apply respects_write; auto|intros _].
    apply respects_bind; [apply respects_write; auto|intros _].
    apply respects_tail, okc_sla.
  - apply respects_await.
  - apply respects_bind; [apply respects_check; auto|intros; apply respects_ret].
  - apply respects_send_byte.
  - apply respects_send_loop.
  - apply respects_write. auto.
Qed.

Lemma respects_exec_all fuel cs :
  (forall e, In (CallCheckStatus e) cs -> okc e) ->
  respects R (exec_all fuel cs).
Proof.
  induction cs as [|c cs IH]; intros Hcs; [apply respects_ret|].
  cbn [exec_all]. apply respects_bind.
  - apply respects_exec. intros e ->. apply Hcs. now left.
  - intros _. apply IH. intros e He. apply Hcs. now right.
Qed.

End Invariants.

(** The two relations the claims need are of that kind. *)

Section Relations.
Context {dev : Type} {Pd : Peripheral dev}.

Lemma never_expects_refl code (m : machine dev) : never_expects code m m.
Proof. exists []. rewrite app_nil_r. split; [reflexivity|]. intros []. Qed.

Lemma never_expects_trans code (m1 m2 m3 : machine dev) :
  never_expects code m1 m2 -> never_expects code m2 m3 ->
  never_expects code m1 m3.
Proof.
  intros [evs1 [H1 N1]] [evs2 [H2 N2]]. exists (evs1 ++ evs2).
  rewrite H2, H1, <- app_assoc. split; [reflexivity|].
  rewrite checks_of_app, map_app, in_app_iff. tauto.
Qed.

Lemma never_expects_event code (m : machine dev) d e :
  (forall s, e <> EvCheck code s) ->
  never_expects code m (Machine d (log m ++ [e])).
Proof.
  intros He. exists [e]. split; [reflexivity|].
  destruct e as [r v|r v|c s]; simpl; try tauto.
  intros [<-|[]]. now apply (He s).
Qed.

Variable T : Type.
Variable obs : dev -> T.
Hypothesis obs_load : forall r d, obs (snd (load r d)) = obs d.
Hypothesis obs_store : forall r v d,
  r = TWDR \/ r = TWCR -> obs (store r v d) = obs d.

Lemma clock_untouched_refl (m : machine dev) : clock_untouched obs m m.
Proof. split; [reflexivity|]. exists []. now rewrite app_nil_r. Qed.

Lemma clock_untouched_trans (m1 m2 m3 : machine dev) :
  clock_untouched obs m1 m2 -> clock_untouched obs m2 m3 ->
  clock_untouched obs m1 m3.
Proof.
  intros [O1 [evs1 [H1 [B1 S1]]]] [O2 [evs2 [H2 [B2 S2]]]].
  split; [congruence|]. exists (evs1 ++ evs2).
  rewrite H2, H1, <- app_assoc, !writes_to_app, B1, B2, S1, S2. auto.
Qed.

Lemma clock_untouched_load r (m : machine dev) :
  clock_untouched obs m
    (Machine (snd (load r (hw m)))
             (log m ++ [EvRead r (u8 (fst (load r (hw m))))])).
Proof. split; [apply obs_load|]. eexists. split; [reflexivity|]. auto. Qed.

Lemma clock_untouched_store r v (m : machine dev) :
  r = TWDR \/ r = TWCR ->
  clock_untouched obs m (Machine (store r v (hw m)) (log m ++ [EvWrite r v])).
Proof.
  intros Hr. split; [apply obs_store, Hr|]. eexists. split; [reflexivity|].
  destruct Hr as [-> | ->]; auto.
Qed.

Lemma clock_untouched_check e s (m : machine dev) :
  clock_untouched obs m (Machine (hw m) (log m ++ [EvCheck e s])).
Proof. split; [reflexivity|]. eexists. split; [reflexivity|]. auto. Qed.

End Relations.

(** * The driver's operations *)

Section Operations.
Context {dev : Type} {Pd : Peripheral dev} {Bd : Build} {Th : TwiHeader}.

(** C2 (as amended): for a positive bus clock and a processor clock that
    fits [unsigned long], with [F_CPU >= 16 * F_SCL] and the quotient small
    enough for the 8-bit divisor register, [i2cInit] returns after exactly
    two register writes: 0 to the status register, which clears the
    prescaler bits, and then [F_CPU / (8 * F_SCL) - 2] to the divisor
    register. *)
Theorem init_writes_divisor (m : machine dev) :
  0 < F_SCL -> 16 * F_SCL <= F_CPU -> F_CPU < 2 ^ 32 ->
  F_CPU / (8 * F_SCL) - 2 < 256 ->
  i2cInit m =
  Done tt (Machine (store TWBR (F_CPU / (8 * F_SCL) - 2) (store TWSR 0 (hw m)))
                   (log m ++ [EvWrite TWSR 0;
                              EvWrite TWBR (F_CPU / (8 * F_SCL) - 2)])) /\
  Z.land 0 0x03 = 0.
Proof.
  intros Hscl Hcpu Hfit Hsmall. split; [|reflexivity].
  assert (Hq : 2 <= F_CPU / (8 * F_SCL))
    by (apply Z.div_le_lower_bound; lia).
  unfold i2cInit, bind, sfr_write, u32. cbn [hw log].
  change (2 ^ 32) with 4294967296 in Hfit.
  rewrite (Z.mod_small F_SCL) by lia.
  rewrite (Z.mod_small (8 * F_SCL)) by lia.
  rewrite (Z.mod_small F_CPU) by lia.
  destruct (8 * F_SCL =? 0) eqn:E; [apply Z.eqb_eq in E; lia|].
  rewrite (Z.mod_small (F_CPU / (8 * F_SCL) - 2)) by lia.
  rewrite (u8_small (F_CPU / (8 * F_SCL) - 2)) by lia.
  cbn [hw log]. change (u8 0) with 0. rewrite <- app_assoc. reflexivity.
Qed.

(** The body of [i2cCheckStatus], for a value [code] of its [char]
    parameter: it reads the status register once, returns 1 exactly when
    the register masked with [0xF8] (its top five bits, the low three
    cleared) equals [code] and 0 otherwise, and writes to no register. *)
Theorem check_status_compares_top5 (m : machine dev) (code : Z) :
  exists twsr r,
    twsr = u8 (fst (load TWSR (hw m))) /\
    i2cCheckStatus code m =
    Done r (Machine (snd (load TWSR (hw m)))
                    (log m ++ [EvRead TWSR twsr;
                               EvCheck code (Z.land twsr 0xF8)])) /\
    Z.land twsr 0xF8 = Z.shiftl (Z.shiftr twsr 3) 3 /\
    (r = 1 <-> Z.land twsr 0xF8 = code) /\
    (r = 0 <-> Z.land twsr 0xF8 <> code) /\
    forall r', writes_to r' [EvRead TWSR twsr;
                             EvCheck code (Z.land twsr 0xF8)] = [].
Proof.
  eexists; eexists. split; [reflexivity|].
  split; [apply check_status_eq|].
  split; [apply status_mask_top5, u8_range|].
  unfold TW_STATUS_MASK.
  destruct (Z.land (u8 (fst (load TWSR (hw m)))) 248 =? code) eqn:E.
  - apply Z.eqb_eq in E. repeat split; intros; try reflexivity;
      congruence.
  - apply Z.eqb_neq in E. repeat split; intros; try reflexivity;
      try congruence; try discriminate.
Qed.

(** C7: in every state [i2cStop] returns after exactly one register
    access, the write of [0x94] to the control register (stop and enable
    set, start clear); it polls nothing and checks no status. *)
Theorem stop_is_one_write (m : machine dev) :
  i2cStop m =
  Done tt (Machine (store TWCR 0x94 (hw m)) (log m ++ [EvWrite TWCR 0x94])) /\
  Z.testbit 0x94 TWSTO = true /\
  Z.testbit 0x94 TWSTA = false /\
  Z.testbit 0x94 TWEN = true.
Proof. repeat split. Qed.

(** C8: [i2cAwaitCompletion] does nothing but read the control register
    and returns exactly at the first read in which bit 7 is set: with
    that read at poll [k] it returns after [k + 1] reads, however large
    [k] is, and is still spinning with any fuel up to [k]; if the flag is
    never set it spins for every fuel; if the flag is eventually set there
    is fuel with which it returns. *)
Theorem await_completion_polls_flag (m : machine dev) :
  (forall fuel a m',
      i2cAwaitCompletion fuel m = Done a m' ->
      exists k evs,
        first_set_at k (hw m) /\ completion_wait evs /\ length evs = S k /\
        m' = Machine (after_polls (S k) (hw m)) (log m ++ evs) /\
        forall r, writes_to r evs = []) /\
  (forall k fuel,
      first_set_at k (hw m) ->
      ((k < fuel)%nat -> exists m', i2cAwaitCompletion fuel m = Done tt m') /\
      ((fuel <= k)%nat -> exists m', i2cAwaitCompletion fuel m = Spinning m')) /\
  ((forall k, flag_at k (hw m) = false) ->
   forall fuel, exists vs,
     i2cAwaitCompletion fuel m =
     Spinning (Machine (after_polls fuel (hw m))
                       (log m ++ map (EvRead TWCR) vs))) /\
  ((exists k, flag_at k (hw m) = true) ->
   exists fuel m', i2cAwaitCompletion fuel m = Done tt m').
Proof.
  split; [|split; [|split]].
  - intros fuel a m' Hrun.
    destruct (await_done fuel m a m' Hrun) as [k [evs [_ [Hfs [Hw [Hlen ->]]]]]].
    exists k, evs. repeat split; auto; try apply Hfs.
    intros r. apply wait_no_writes. exact Hw.
  - intros k fuel Hfs. split; intros Hk.
    + destruct (await_first k m fuel Hfs Hk) as [evs [_ [_ Hrun]]]. eauto.
    + destruct (await_clear fuel m) as [vs [_ [_ Hrun]]]; [|eauto].
      intros j Hj. apply Hfs. lia.
  - intros Hnever fuel.
    destruct (await_clear fuel m) as [vs [_ [_ Hrun]]]; [|eauto].
    intros j _. apply Hnever.
  - intros [k Hk].
    destruct (polls_cases (S k) (hw m)) as [[k' [Hk' Hfs]]|Hclear].
    + destruct (await_first k' m (S k') Hfs ltac:(lia)) as [evs [_ [_ Hrun]]].
      eauto.
    + rewrite Hclear in Hk by lia. discriminate.
Qed.



(** C3: a returned [i2cSendByte] has stored the byte, written the
    transmit pattern, waited, and compared the status with
    [TW_MT_DATA_ACK]; what it returns is the unit value, and once the
    completion flag is read set it returns it whatever status the
    peripheral reports, with the same two register writes. *)
Theorem send_byte_discards_status (fuel : nat) (byte : Z) (m : machine dev) :
  0 <= TW_MT_DATA_ACK < 128 ->
  (forall a m',
      i2cSendByte fuel byte m = Done a m' ->
      a = tt /\
      exists wait s,
        completion_wait wait /\
        log m' = log m ++ [EvWrite TWDR (u8 byte); EvWrite TWCR 0x84] ++ wait ++
                   [EvRead TWSR s; EvCheck TW_MT_DATA_ACK (Z.land s 0xF8)] /\
        checks_of ([EvWrite TWDR (u8 byte); EvWrite TWCR 0x84] ++ wait ++
                   [EvRead TWSR s; EvCheck TW_MT_DATA_ACK (Z.land s 0xF8)]) =
          [(TW_MT_DATA_ACK, Z.land s 0xF8)]) /\
  (forall k,
      first_set_at k (store TWCR 0x84 (store TWDR (u8 byte) (hw m))) ->
      (k < fuel)%nat ->
      exists wait,
        i2cSendByte fuel byte m =
        Done tt (checked TW_MT_DATA_ACK
                   (Machine (after_polls (S k)
                               (store TWCR 0x84 (store TWDR (u8 byte) (hw m))))
                            (log m ++ [EvWrite TWDR (u8 byte); EvWrite TWCR 0x84]
                                   ++ wait)))).
Proof.
  intros Hfit. rewrite send_byte_eq, (to_char_small _ Hfit). split.
  - intros a m' Hrun. split; [now destruct a|].
    apply wait_then_check_done in Hrun.
    destruct Hrun as [k [wait [_ [_ [Hw [_ ->]]]]]]. cbn [hw log].
    exists wait. eexists. split; [exact Hw|]. split; [apply checked_log|].
    rewrite !checks_of_app, (wait_no_checks wait Hw). reflexivity.
  - intros k Hfs Hk.
    destruct (await_first k
                (Machine (store TWCR 0x84 (store TWDR (u8 byte) (hw m)))
                         (log m ++ [EvWrite TWDR (u8 byte); EvWrite TWCR 0x84]))
                fuel Hfs Hk) as [wait [_ [_ Hrun]]].
    exists wait. unfold wait_then_check, bind. rewrite Hrun, check_status_eq.
    unfold checked, ret. cbn [hw log]. rewrite <- !app_assoc. reflexivity.
Qed.


(** C1 (what the code does): for a 7-bit address, the byte
    [i2cSendAddress] stores into the data register carries the address in
    bits 7..1, and its bit 0 is set exactly when the direction argument
    [rw] is zero: a non-zero [rw] clears bit 0 (the bus's write
    direction) and a zero [rw] sets it (the bus's read direction), the
    opposite of the R/W table in the function's own comment.  The call
    returns once the completion flag is read set. *)
Theorem send_address_direction_bit (fuel : nat) (address rw : Z)
    (m : machine dev) :
  0 <= address < 128 ->
  (forall a m',
      i2cSendAddress fuel address rw m = Done a m' ->
      exists byte rest,
        log m' = log m ++ EvWrite TWDR byte :: rest /\
        writes_to TWDR rest = [] /\
        byte = 2 * address + (if rw =? 0 then 1 else 0) /\
        Z.shiftr byte 1 = address /\
        Z.testbit byte 0 = (rw =? 0)) /\
  (forall k,
      first_set_at k
        (store TWCR 0x84
           (store TWDR (2 * address + (if rw =? 0 then 1 else 0)) (hw m))) ->
      (k < fuel)%nat ->
      exists m', i2cSendAddress fuel address rw m = Done tt m').
Proof.
  intros Ha. split.
  - intros a m' Hrun. rewrite send_address_eq in Hrun.
    apply wait_then_check_done in Hrun.
    destruct Hrun as [k [wait [_ [_ [Hw [_ ->]]]]]]. cbn [hw log].
    rewrite checked_log. eexists. eexists. split; [reflexivity|].
    split.
    { cbn [app writes_to reg_eqb].
      rewrite writes_to_app, (wait_no_writes wait TWDR Hw). reflexivity. }
    rewrite (address_byte_7bit address rw Ha). split; [reflexivity|].
    rewrite Z.shiftr_div_pow2 by lia. change (2 ^ 1) with 2.
    destruct (rw =? 0).
    + split; [symmetry; apply (Z.div_unique _ 2 address 1); lia|].
      apply Z.testbit_odd_0.
    + rewrite Z.add_0_r. split; [symmetry; apply (Z.div_unique _ 2 address 0); lia|].
      apply Z.testbit_even_0.
  - intros k Hfs Hk. rewrite <- (address_byte_7bit address rw Ha) in Hfs.
    apply (send_address_returns fuel address rw m k Hfs Hk).
Qed.

(** C4: called with [n] arguments, [i2cSendData] is the same computation as
    [n] successive [i2cSendByte] calls on them in order; when it returns,
    every byte has been stored into the data register, in argument order,
    and the status has been compared with the data-acknowledged code once
    per byte, whatever the comparisons gave. *)
Theorem send_data_is_send_byte_each (fuel : nat) (bytes : list Z)
    (m : machine dev) :
  i2cSendData fuel (Z.of_nat (length bytes)) bytes m =
  sendByte_each fuel bytes m /\
  forall a m',
    i2cSendData fuel (Z.of_nat (length bytes)) bytes m = Done a m' ->
    exists evs,
      log m' = log m ++ evs /\
      writes_to TWDR evs = map u8 bytes /\
      map fst (checks_of evs) =
        repeat (to_char TW_MT_DATA_ACK) (length bytes).
Proof.
  unfold i2cSendData. rewrite Nat2Z.id, send_data_is_each.
  split; [reflexivity|]. apply send_each_done.
Qed.

(** C9: whatever sequence of the other public operations a client runs,
    and whether the last of them returns or hangs, no write to the divisor
    register or to the status register is made; and on a peripheral whose
    divisor and prescaler are not changed by register reads or by writes
    to the data and control registers, both are as [i2cInit] left them.
    The sequence has defined behaviour as long as no [i2cSendData] call
    passes fewer arguments than it announces. *)
Theorem clock_configuration_never_rewritten (fuel : nat) (cs : list call)
    (m : machine dev) :
  (enough_arguments cs -> exec_all fuel cs m <> Undefined) /\
  match exec_all fuel cs m with
  | Done _ m' | Spinning m' =>
      (exists evs, log m' = log m ++ evs /\
                   writes_to TWBR evs = [] /\ writes_to TWSR evs = []) /\
      forall divisor prescaler : dev -> Z,
        (forall r d, divisor (snd (load r d)) = divisor d /\
                     prescaler (snd (load r d)) = prescaler d) ->
        (forall r v d, r = TWDR \/ r = TWCR ->
                       divisor (store r v d) = divisor d /\
                       prescaler (store r v d) = prescaler d) ->
        divisor (hw m') = divisor (hw m) /\
        prescaler (hw m') = prescaler (hw m)
  | Undefined => True
  end.
Proof.
  split; [intros Hcs; apply defined_exec_all, Hcs|].
  assert (Hgen : forall (T : Type) (obs : dev -> T),
             (forall r d, obs (snd (load r d)) = obs d) ->
             (forall r v d, r = TWDR \/ r = TWCR -> obs (store r v d) = obs d) ->
             respects (clock_untouched obs) (exec_all fuel cs)).
  { intros T obs Hload Hstore.
    apply respects_exec_all with (okc := fun _ => True); auto.
    - apply clock_untouched_refl.
    - apply clock_untouched_trans.
    - intros r m0. apply clock_untouched_load. exact Hload.
    - intros r v m0 Hr. apply clock_untouched_store; assumption.
    - intros e s m0 _. apply clock_untouched_check. }
  pose proof (Hgen unit (fun _ => tt) (fun _ _ => eq_refl)
                   (fun _ _ _ _ => eq_refl) m) as Hlog.
  assert (Hobs : forall divisor prescaler : dev -> Z,
             (forall r d, divisor (snd (load r d)) = divisor d /\
                          prescaler (snd (load r d)) = prescaler d) ->
             (forall r v d, r = TWDR \/ r = TWCR ->
                            divisor (store r v d) = divisor d /\
                            prescaler (store r v d) = prescaler d) ->
             match exec_all fuel cs m with
             | Done _ m' | Spinning m' =>
                 divisor (hw m') = divisor (hw m) /\
                 prescaler (hw m') = prescaler (hw m)
             | Undefined => True
             end).
  { intros divisor prescaler Hl Hs.
    pose proof (Hgen (Z * Z)%type (fun d => (divisor d, prescaler d))) as Hp.
    cbv beta in Hp.
    assert (Hl' : forall r d,
               (divisor (snd (load r d)), prescaler (snd (load r d))) =
               (divisor d, prescaler d))
      by (intros r d; destruct (Hl r d) as [-> ->]; reflexivity).
    assert (Hs' : forall r v d, r = TWDR \/ r = TWCR ->
               (divisor (store r v d), prescaler (store r v d)) =
               (divisor d, prescaler d))
      by (intros r v d Hr; destruct (Hs r v d Hr) as [-> ->]; reflexivity).
    specialize (Hp Hl' Hs' m).
    destruct (exec_all fuel cs m) as [a m'|m'|]; auto;
      destruct Hp as [Hp _]; injection Hp; auto. }
  destruct (exec_all fuel cs m) as [a m'|m'|]; auto;
    (split; [apply Hlog|]); intros divisor prescaler Hl Hs;
    apply (Hobs divisor prescaler Hl Hs).
Qed.

(** C10: whatever the direction argument, [i2cSendAddress] returns once
    the completion flag is read set, and a returned call has stored the
    address byte, written the transmit pattern, polled up to the first set
    flag, read the status register, and compared what it read there,
    masked with [0xF8], with [TW_MT_SLA_ACK]: that is its only comparison.
    No operation of the driver ever compares the status with
    [TW_MR_SLA_ACK]: [i2cInit] compares nothing, and a client's sequence
    of calls does so only where the client itself passes that code to
    [i2cCheckStatus]. *)
Theorem send_address_expects_mt_sla_ack_only :
  codes_fit_char -> mr_code_distinct ->
  (forall fuel address rw (m : machine dev) k,
      first_set_at k
        (store TWCR 0x84 (store TWDR (address_byte address rw) (hw m))) ->
      (k < fuel)%nat ->
      exists m', i2cSendAddress fuel address rw m = Done tt m') /\
  (forall fuel address rw (m : machine dev) a m',
      i2cSendAddress fuel address rw m = Done a m' ->
      exists k wait s,
        first_set_at k
          (store TWCR 0x84 (store TWDR (address_byte address rw) (hw m))) /\
        completion_wait wait /\ length wait = S k /\
        s = u8 (fst (load TWSR
                       (after_polls (S k)
                          (store TWCR 0x84
                             (store TWDR (address_byte address rw) (hw m)))))) /\
        hw m' = snd (load TWSR
                       (after_polls (S k)
                          (store TWCR 0x84
                             (store TWDR (address_byte address rw) (hw m))))) /\
        log m' = log m ++ [EvWrite TWDR (address_byte address rw);
                           EvWrite TWCR 0x84] ++ wait ++
                   [EvRead TWSR s; EvCheck TW_MT_SLA_ACK (Z.land s 0xF8)] /\
        checks_of ([EvWrite TWDR (address_byte address rw);
                    EvWrite TWCR 0x84] ++ wait ++
                   [EvRead TWSR s; EvCheck TW_MT_SLA_ACK (Z.land s 0xF8)]) =
          [(TW_MT_SLA_ACK, Z.land s 0xF8)]) /\
  (forall m : machine dev,
      match i2cInit m with
      | Done _ m' | Spinning m' =>
          exists evs, log m' = log m ++ evs /\ checks_of evs = []
      | Undefined => True
      end) /\
  (forall fuel cs (m : machine dev),
      enough_arguments cs -> exec_all fuel cs m <> Undefined) /\
  (forall fuel cs (m : machine dev),
      ~ In (CallCheckStatus TW_MR_SLA_ACK) cs ->
      match exec_all fuel cs m with
      | Done _ m' | Spinning m' =>
          exists evs, log m' = log m ++ evs /\
                      ~ In TW_MR_SLA_ACK (map fst (checks_of evs))
      | Undefined => True
      end).
Proof.
  intros [Hst [Hsla Hdata]] [Nst [Nsla Ndata]].
  split; [|split; [|split; [|split]]].
  - intros fuel address rw m k. apply send_address_returns.
  - intros fuel address rw m a m' Hrun. rewrite send_address_eq in Hrun.
    apply wait_then_check_done in Hrun.
    destruct Hrun as [k [wait [_ [Hfs [Hw [Hlen ->]]]]]]. cbn [hw log] in *.
    rewrite checked_log, (to_char_small _ Hsla).
    exists k, wait. eexists.
    split; [exact Hfs|]. split; [exact Hw|]. split; [exact Hlen|].
    split; [reflexivity|]. split; [reflexivity|]. split; [reflexivity|].
    rewrite !checks_of_app, (wait_no_checks wait Hw). reflexivity.
  - intros m. unfold i2cInit, bind, sfr_write. cbn [hw log].
    destruct (u32 (8 * u32 F_SCL) =? 0); [exact I|].
    cbn [hw log]. eexists. rewrite <- app_assoc. split; reflexivity.
  - intros fuel cs m Hcs. apply defined_exec_all, Hcs.
  - intros fuel cs m Hcs.
    apply (respects_exec_all (never_expects TW_MR_SLA_ACK)
             (fun e => e <> TW_MR_SLA_ACK)).
    + apply never_expects_refl.
    + apply never_expects_trans.
    + intros r m0. apply never_expects_event. discriminate.
    + intros r v m0 _. apply never_expects_event. discriminate.
    + intros e s m0 He. apply never_expects_event. congruence.
    + rewrite (to_char_small _ Hst). congruence.
    + rewrite (to_char_small _ Hsla). congruence.
    + rewrite (to_char_small _ Hdata). congruence.
    + intros e He ->. contradiction.
Qed.

End Operations.

(** * The driver on the bench *)

(** A read of the control register that reports completion on the third
    poll is the first set flag at poll 2. *)
Lemma bench_third_poll d0 d1 d2 d3 st :
  first_set_at 2 (Bench d0 d1 d2 d3 [0; 0; 0x80] st).
Proof.
  split; [reflexivity|].
  intros [|[|j]] Hj; [reflexivity|reflexivity|lia].
Qed.

(** [i2cInit] with a 16 MHz processor clock and the header's 400 kHz bus
    clock leaves 3 in the divisor register. *)
Lemma init_16MHz_400kHz :
  (0 < @F_SCL (i2c_h 16000000) /\
   16 * @F_SCL (i2c_h 16000000) <= @F_CPU (i2c_h 16000000) /\
   @F_CPU (i2c_h 16000000) < 2 ^ 32 /\
   @F_CPU (i2c_h 16000000) / (8 * @F_SCL (i2c_h 16000000)) - 2 < 256) /\
  @i2cInit bench _ (i2c_h 16000000) (bench_init [] 0) =
  Done tt (Machine (Bench 3 0 0 0 [] 0) [EvWrite TWSR 0; EvWrite TWBR 3]).
Proof.
  split; [vm_compute; intuition discriminate|].
  refine (proj1 (@init_writes_divisor bench _ (i2c_h 16000000)
                   (bench_init [] 0) _ _ _ _));
    vm_compute; first [reflexivity | discriminate].
Defined.

(** C2 as stated fails once the quotient no longer fits the 8-bit divisor
    register.  With a 16 MHz processor clock and a 5 kHz bus clock the
    formula gives 398 and the register receives 142; with a 1 GHz processor
    clock and the header's bus clock the formula gives 310 and the register
    receives 54. *)
Lemma init_divisor_wraps :
  (16 * @F_SCL slow_bus <= @F_CPU slow_bus /\
   @F_CPU slow_bus / (8 * @F_SCL slow_bus) - 2 = 398 /\
   @i2cInit bench _ slow_bus (bench_init [] 0) =
   Done tt (Machine (Bench 142 0 0 0 [] 0) [EvWrite TWSR 0; EvWrite TWBR 142]) /\
   142 <> 398) /\
  (16 * @F_SCL (i2c_h 1000000000) <= @F_CPU (i2c_h 1000000000) /\
   @F_CPU (i2c_h 1000000000) / (8 * @F_SCL (i2c_h 1000000000)) - 2 = 310 /\
   @i2cInit bench _ (i2c_h 1000000000) (bench_init [] 0) =
   Done tt (Machine (Bench 54 0 0 0 [] 0) [EvWrite TWSR 0; EvWrite TWBR 54]) /\
   54 <> 310).
Proof.
  split; (split; [vm_compute; discriminate|]);
    (split; [reflexivity|]); (split; [reflexivity|discriminate]).
Qed.


(** [i2cSendByte] returns the unit value on a bench that reports
    "data transmitted, not acknowledged" ([0x30]). *)
Lemma send_byte_not_acknowledged :
  0 <= @TW_MT_DATA_ACK avr_libc < 128 /\
  exists wait,
    @i2cSendByte bench _ (i2c_h 16000000) avr_libc 5 0x41
      (bench_init [0; 0; 0x80] 0x30)
    = Done tt (checked 0x28
                 (Machine (Bench 0 0 0x41 0x84 [] 0x30)
                          ([EvWrite TWDR 0x41; EvWrite TWCR 0x84] ++ wait))).
Proof.
  split; [vm_compute; intuition discriminate|].
  destruct (@send_byte_discards_status bench _ (i2c_h 16000000) avr_libc 5 0x41
              (bench_init [0; 0; 0x80] 0x30))
    as [_ Hret]; [vm_compute; intuition discriminate|].
  apply (Hret 2%nat); [apply bench_third_poll|lia].
Defined.

(** [i2cSendAddress(0x50, 0)] stages [0xA1]. *)
Lemma send_address_0x50_zero :
  0 <= 0x50 < 128 /\
  exists byte rest,
    [EvWrite TWDR 0xA1; EvWrite TWCR 0x84; EvRead TWCR 0x80;
     EvRead TWSR 0x18; EvCheck 0x18 0x18] = [] ++ EvWrite TWDR byte :: rest /\
    writes_to TWDR rest = [] /\
    byte = 2 * 0x50 + (if 0 =? 0 then 1 else 0) /\
    Z.shiftr byte 1 = 0x50 /\
    Z.testbit byte 0 = (0 =? 0).
Proof.
  split; [lia|].
  destruct (@send_address_direction_bit bench _ (i2c_h 16000000) avr_libc 5
              0x50 0 (bench_init [0x80] 0x18)) as [Hshape _]; [lia|].
  apply (Hshape tt
           (Machine (Bench 0 0 0xA1 0x84 [] 0x18)
                    [EvWrite TWDR 0xA1; EvWrite TWCR 0x84; EvRead TWCR 0x80;
                     EvRead TWSR 0x18; EvCheck 0x18 0x18])).
  reflexivity.
Defined.

(** The same call with a non-zero direction argument stages [0xA0], and
    with a zero one [0xA1]. *)
Lemma send_address_0x50_both :
  writes_to TWDR (log_of (@i2cSendAddress bench _ (i2c_h 16000000) avr_libc 5
                            0x50 1 (bench_init [0x80] 0x18))) = [0xA0] /\
  writes_to TWDR (log_of (@i2cSendAddress bench _ (i2c_h 16000000) avr_libc 5
                            0x50 0 (bench_init [0x80] 0x18))) = [0xA1].
Proof. split; reflexivity. Qed.

(** With avr-libc's codes, [i2cSendAddress] with the read bit on the bus,
    on a bench that answers "address and read acknowledged" ([0x40]),
    still compares that status with [0x18]. *)
Lemma send_address_read_expects_0x18 :
  (@codes_fit_char avr_libc /\ @mr_code_distinct avr_libc) /\
  exists m' wait s,
    @i2cSendAddress bench _ (i2c_h 16000000) avr_libc 5 0x50 0
      (bench_init [0; 0x80] 0x40) = Done tt m' /\
    completion_wait wait /\
    s = 0x40 /\
    log m' = [] ++ [EvWrite TWDR 0xA1; EvWrite TWCR 0x84] ++ wait ++
               [EvRead TWSR s; EvCheck 0x18 (Z.land s 0xF8)].
Proof.
  split; [vm_compute; intuition discriminate|].
  destruct (@send_address_expects_mt_sla_ack_only bench _ (i2c_h 16000000) avr_libc)
    as [_ [Hsla _]]; [vm_compute; intuition discriminate
                     |vm_compute; intuition discriminate|].
  assert (E : exists m',
             @i2cSendAddress bench _ (i2c_h 16000000) avr_libc 5 0x50 0
               (bench_init [0; 0x80] 0x40) = Done tt m')
    by (vm_compute; eexists; reflexivity).
  destruct E as [m' E].
  destruct (Hsla 5%nat 0x50 0 (bench_init [0; 0x80] 0x40) tt m' E)
    as [k [wait [s [Hfs [Hw [Hlen [Hs [_ [Hlog _]]]]]]]]].
  exists m', wait, s. split; [exact E|]. split; [exact Hw|].
  split; [|exact Hlog].
  rewrite Hs. clear - Hfs.
  destruct k as [|[|k]].
  - destruct Hfs as [Hset _]. discriminate Hset.
  - reflexivity.
  - destruct Hfs as [_ Hclear]. specialize (Hclear 1%nat ltac:(lia)).
    discriminate Hclear.
Defined.

(** Three bytes, none acknowledged, all sent. *)
Lemma send_data_three_unacknowledged :
  exists evs,
    log_of (@i2cSendData bench _ (i2c_h 16000000) avr_libc 5 3 [0x10; 0x20; 0x30]
              (bench_init [0x80; 0; 0x80; 0x80] 0x30)) = [] ++ evs /\
    writes_to TWDR evs = map u8 [0x10; 0x20; 0x30] /\
    map fst (checks_of evs) = repeat (@to_char (i2c_h 16000000) 0x28) 3.
Proof.
  destruct (@send_data_is_send_byte_each bench _ (i2c_h 16000000) avr_libc 5
              [0x10; 0x20; 0x30] (bench_init [0x80; 0; 0x80; 0x80] 0x30))
    as [_ Hdone].
  destruct (Hdone tt
              (Machine (Bench 0 0 0x30 0x84 [] 0x30)
                 [EvWrite TWDR 0x10; EvWrite TWCR 0x84; EvRead TWCR 0x80;
                  EvRead TWSR 0x30; EvCheck 0x28 0x30;
                  EvWrite TWDR 0x20; EvWrite TWCR 0x84; EvRead TWCR 0;
                  EvRead TWCR 0x80; EvRead TWSR 0x30; EvCheck 0x28 0x30;
                  EvWrite TWDR 0x30; EvWrite TWCR 0x84; EvRead TWCR 0x80;
                  EvRead TWSR 0x30; EvCheck 0x28 0x30]) eq_refl)
    as [evs Hevs].
  exists evs. exact Hevs.
Defined.

(** The polling loop on the bench: it returns at the third poll, and spins
    for ever on a bench that never reports completion. *)
Lemma await_on_bench :
  (exists m',
      i2cAwaitCompletion 3 (bench_init [0; 0; 0x80] 0) = Done tt m') /\
  (exists m',
      i2cAwaitCompletion 2 (bench_init [0; 0; 0x80] 0) = Spinning m') /\
  (forall fuel, exists vs,
      i2cAwaitCompletion fuel (bench_init [] 0) =
      Spinning (Machine (after_polls fuel (Bench 0 0 0 0 [] 0))
                        ([] ++ map (EvRead TWCR) vs))).
Proof.
  destruct (await_completion_polls_flag (bench_init [0; 0; 0x80] 0))
    as [_ [Hfirst _]].
  destruct (await_completion_polls_flag (bench_init [] 0))
    as [_ [_ [Hnever _]]].
  split; [|split].
  - apply (Hfirst 2%nat 3%nat); [apply bench_third_poll|lia].
  - apply (Hfirst 2%nat 2%nat); [apply bench_third_poll|lia].
  - apply Hnever. intros k. unfold flag_at.
    replace (after_polls k (hw (bench_init [] 0))) with (Bench 0 0 0 0 [] 0);
      [reflexivity|].
    induction k as [|k IH]; [reflexivity|exact IH].
Defined.

(** After [i2cInit], a whole transaction leaves the bench's divisor at 3
    and its prescaler bits at 0. *)
Lemma transaction_keeps_clock_on_bench :
  exists m',
    @exec_all bench _ (i2c_h 16000000) avr_libc 5
      [CallStart; CallSendAddress 0x50 1; CallSendData 2 [0x00; 0xAF];
       CallCheckStatus 0x28; CallStop]
      (Machine (Bench 3 0 0 0 [0x80; 0; 0x80; 0x80; 0x80] 0x28) [])
    = Done tt m' /\
    r_twbr (hw m') = 3 /\ bench_prescaler (hw m') = 0.
Proof.
  pose proof (@clock_configuration_never_rewritten bench _ (i2c_h 16000000)
                avr_libc 5
                [CallStart; CallSendAddress 0x50 1; CallSendData 2 [0x00; 0xAF];
                 CallCheckStatus 0x28; CallStop]
                (Machine (Bench 3 0 0 0 [0x80; 0; 0x80; 0x80; 0x80] 0x28) []))
    as Hkeep.
  assert (E : exists m',
             @exec_all bench _ (i2c_h 16000000) avr_libc 5
               [CallStart; CallSendAddress 0x50 1; CallSendData 2 [0x00; 0xAF];
                CallCheckStatus 0x28; CallStop]
               (Machine (Bench 3 0 0 0 [0x80; 0; 0x80; 0x80; 0x80] 0x28) [])
             = Done tt m')
    by (vm_compute; eexists; reflexivity).
  destruct Hkeep as [_ Hkeep].
  destruct E as [m' E]. rewrite E in Hkeep. exists m'. split; [exact E|].
  destruct Hkeep as [_ Hobs]. apply (Hobs r_twbr bench_prescaler).
  - intros [] d; [| | |simpl; destruct (polls d)]; split; reflexivity.
  - intros r v d [-> | ->]; split; reflexivity.
Defined.

(** Where plain [char] is signed, the literal [0xF8] ("no state
    information") reaches [i2cCheckStatus] as [-8], which no masked status
    equals: the comparison fails even when the status register holds
    [0xF8]. *)
Lemma check_status_0xF8_signed_char :
  @to_char (i2c_h 16000000) 0xF8 = -8 /\
  exists m',
    i2cCheckStatus (@to_char (i2c_h 16000000) 0xF8) (bench_init [] 0xF8)
    = Done 0 m'.
Proof.
  split; [reflexivity|].
  exists (Machine (Bench 0 0 0 0 [] 0xF8) [EvRead TWSR 0xF8; EvCheck (-8) 0xF8]).
  reflexivity.
Qed.

(** * Further properties of the driver *)

(** ** Bytes of arbitrary integers *)

Lemma u8_land_ones v : u8 v = Z.land v 255.
Proof.
  unfold u8. change 255 with (Z.ones 8). rewrite Z.land_ones by lia.
  reflexivity.
Qed.

Lemma u8_land_0xFE v : u8 (Z.land v 0xFE) = Z.land (u8 v) 0xFE.
Proof. rewrite !u8_land_ones, <- !Z.land_assoc. reflexivity. Qed.

Lemma u8_lor_1 v : u8 (Z.lor v 0x01) = Z.lor (u8 v) 0x01.
Proof. rewrite !u8_land_ones, Z.land_lor_distr_l. reflexivity. Qed.

Lemma u8_double v : u8 (Z.shiftl v 1) = 2 * (v mod 128).
Proof.
  rewrite Z.shiftl_mul_pow2 by lia. change (2 ^ 1) with 2.
  unfold u8. rewrite Z.mul_comm. change 256 with (2 * 128).
  apply Z.mul_mod_distr_l; lia.
Qed.

Lemma address_byte_low_bits address rw :
  address_byte address rw =
  address_byte (address mod 128) (if rw =? 0 then 0 else 1).
Proof.
  unfold address_byte.
  replace ((if rw =? 0 then 0 else 1) =? 0) with (rw =? 0)
    by (destruct (rw =? 0); reflexivity).
  destruct (negb (rw =? 0)).
  - rewrite !u8_land_0xFE, !u8_double, Z.mod_mod by lia. reflexivity.
  - rewrite !u8_lor_1, !u8_double, Z.mod_mod by lia. reflexivity.
Qed.

(** A masked status is a multiple of 8 between 0 and 248. *)
Lemma masked_status_shape v :
  0 <= v < 256 ->
  0 <= Z.land v TW_STATUS_MASK <= 248 /\ Z.land v TW_STATUS_MASK mod 8 = 0.
Proof.
  intros Hv.
  assert (Hb : (0 <=? Z.land v TW_STATUS_MASK) &&
               (Z.land v TW_STATUS_MASK <=? 248) &&
               (Z.land v TW_STATUS_MASK mod 8 =? 0) = true)
    by (apply (forall_u8 (fun x => (0 <=? Z.land x TW_STATUS_MASK) &&
                                   (Z.land x TW_STATUS_MASK <=? 248) &&
                                   (Z.land x TW_STATUS_MASK mod 8 =? 0)));
        [vm_compute; reflexivity | exact Hv]).
  apply andb_true_iff in Hb. destruct Hb as [Hb H8].
  apply andb_true_iff in Hb. destruct Hb as [H0 H248].
  apply Z.leb_le in H0. apply Z.leb_le in H248. apply Z.eqb_eq in H8. auto.
Qed.

Section Edges.
Context {dev : Type} {Pd : Peripheral dev} {Bd : Build} {Th : TwiHeader}.

Lemma check_status_mismatch code m :
  Z.land (u8 (fst (load TWSR (hw m)))) TW_STATUS_MASK <> code ->
  i2cCheckStatus code m = Done 0 (checked code m).
Proof.
  intros Hne. rewrite check_status_eq. apply Z.eqb_neq in Hne. rewrite Hne.
  reflexivity.
Qed.

(** X1: for every processor clock that fits [unsigned long] and every bus
    clock whose eightfold does, [i2cInit] stores the quotient less 2 reduced
    modulo 256 into the divisor register.  Nothing guards the subtraction:
    a processor clock below [8 * F_SCL] leaves 254 in the register, and one
    from [8 * F_SCL] up to [16 * F_SCL] leaves 255. *)
Theorem init_writes_quotient_mod_256 (m : machine dev) :
  0 <= F_CPU < 2 ^ 32 -> 0 < F_SCL -> 8 * F_SCL < 2 ^ 32 ->
  i2cInit m =
  Done tt (Machine (store TWBR ((F_CPU / (8 * F_SCL) - 2) mod 256)
                          (store TWSR 0 (hw m)))
                   (log m ++ [EvWrite TWSR 0;
                              EvWrite TWBR ((F_CPU / (8 * F_SCL) - 2) mod 256)])) /\
  (F_CPU < 8 * F_SCL -> (F_CPU / (8 * F_SCL) - 2) mod 256 = 254) /\
  (8 * F_SCL <= F_CPU < 16 * F_SCL -> (F_CPU / (8 * F_SCL) - 2) mod 256 = 255).
Proof.
  intros Hcpu Hscl Hscl8. change (2 ^ 32) with 4294967296 in *.
  split; [|split].
  - unfold i2cInit, bind, sfr_write, u32. cbn [hw log].
    rewrite (Z.mod_small F_SCL) by lia.
    rewrite (Z.mod_small (8 * F_SCL)) by lia.
    rewrite (Z.mod_small F_CPU) by lia.
    destruct (8 * F_SCL =? 0) eqn:E; [apply Z.eqb_eq in E; lia|].
    cbn [hw log]. change (u8 0) with 0. unfold u8.
    rewrite (Z.mod_mod_divide _ 4294967296 256)
      by (exists 16777216; reflexivity).
    rewrite <- app_assoc. reflexivity.
  - intros Hlow. rewrite Z.div_small by lia. reflexivity.
  - intros Hmid.
    replace (F_CPU / (8 * F_SCL)) with 1; [reflexivity|].
    apply (Z.div_unique _ _ 1 (F_CPU - 8 * F_SCL)); lia.
Qed.

(** X2: [i2cSendAddress] uses only the low seven bits of its address
    argument and only whether [rw] is zero: bit 7 of the address is shifted
    out of the byte, so an address and the address plus 128 select the same
    device. *)
Theorem send_address_reads_low_bits (fuel : nat) (address rw : Z)
    (m : machine dev) :
  i2cSendAddress fuel address rw m =
  i2cSendAddress fuel (address mod 128) (if rw =? 0 then 0 else 1) m /\
  i2cSendAddress fuel (address + 128) rw m = i2cSendAddress fuel address rw m.
Proof.
  rewrite !send_address_eq. split.
  - rewrite <- address_byte_low_bits. reflexivity.
  - rewrite (address_byte_low_bits (address + 128)),
            (address_byte_low_bits address).
    replace ((address + 128) mod 128) with (address mod 128); [reflexivity|].
    rewrite <- (Z.mul_1_l 128) at 2. rewrite Z_mod_plus_full. reflexivity.
Qed.

(** X3: a code that is negative, above [0xF8], or not a multiple of 8 can
    never equal the masked status: [i2cCheckStatus] returns 0 for it
    whatever the status register holds. *)
Theorem check_status_never_matches (m : machine dev) (code : Z) :
  code < 0 \/ 248 < code \/ code mod 8 <> 0 ->
  i2cCheckStatus code m = Done 0 (checked code m).
Proof.
  intros Hcode. apply check_status_mismatch.
  destruct (masked_status_shape (u8 (fst (load TWSR (hw m)))) (u8_range _))
    as [[H0 H248] H8].
  intros Heq. rewrite Heq in *. lia.
Qed.

(** X4: a status code from [0x80] to [0xFF] passed to [i2cCheckStatus]
    reaches the [char] parameter unchanged only where plain [char] is
    unsigned; where it is signed the parameter is negative and the
    comparison fails whatever the status register holds. *)
Theorem check_status_high_code (m : machine dev) (code : Z) :
  128 <= code < 256 ->
  (char_signed = true ->
   i2cCheckStatus (to_char code) m = Done 0 (checked (to_char code) m)) /\
  (char_signed = false ->
   exists r,
     i2cCheckStatus (to_char code) m = Done r (checked code m) /\
     (r = 1 <-> Z.land (u8 (fst (load TWSR (hw m)))) 0xF8 = code)).
Proof.
  intros Hcode. unfold to_char. split; intros Hsign; rewrite Hsign.
  - replace ((code + 128) mod 256 - 128) with (code - 256).
    + apply check_status_mismatch.
      destruct (masked_status_shape (u8 (fst (load TWSR (hw m)))) (u8_range _))
        as [[H0 _] _]. lia.
    + rewrite <- (Z_mod_plus_full (code + 128) (-1) 256).
      rewrite Z.mod_small; lia.
  - rewrite Z.mod_small by lia. eexists. split; [apply check_status_eq|].
    unfold TW_STATUS_MASK.
    destruct (Z.land (u8 (fst (load TWSR (hw m)))) 248 =? code) eqn:E.
    + apply Z.eqb_eq in E. tauto.
    + apply Z.eqb_neq in E. split; [discriminate|contradiction].
Qed.

End Edges.

(** ** More on the ghost log *)

Lemma writes_of_app evs1 evs2 :
  writes_of (evs1 ++ evs2) = writes_of evs1 ++ writes_of evs2.
Proof.
  induction evs1 as [|e evs1 IH]; [reflexivity|].
  destruct e; simpl; now rewrite IH.
Qed.

Lemma wait_writes_nothing evs : completion_wait evs -> writes_of evs = [].
Proof. induction 1; simpl; auto. Qed.

Lemma polls_no_writes r vs : writes_to r (map (EvRead TWCR) vs) = [].
Proof. induction vs; simpl; auto. Qed.

Lemma polls_no_checks vs : checks_of (map (EvRead TWCR) vs) = [].
Proof. induction vs; simpl; auto. Qed.

Lemma wait_in_footprint evs :
  completion_wait evs -> forallb driver_event evs = true.
Proof. induction 1; simpl; auto. Qed.

(** ** Argument lists of [i2cSendData] *)

Section Arguments.
Context {dev : Type} {Pd : Peripheral dev} {Bd : Build} {Th : TwiHeader}.

Lemma bind_spinning {A B} (c : M dev A) (k : A -> M dev B) m m2 :
  bind c k m = Spinning m2 ->
  c m = Spinning m2 \/ exists a m1, c m = Done a m1 /\ k a m1 = Spinning m2.
Proof.
  unfold bind. destruct (c m) as [a m1|m1|]; intros Hrun.
  - right. exists a, m1. auto.
  - left. injection Hrun as ->. reflexivity.
  - discriminate.
Qed.

Lemma wait_then_check_spinning fuel e m m' :
  wait_then_check fuel e m = Spinning m' ->
  exists vs, m' = Machine (after_polls fuel (hw m))
                          (log m ++ map (EvRead TWCR) vs).
Proof.
  intros Hrun.
  destruct (wait_then_check_run fuel e m)
    as [[k [wait [_ [_ [_ [_ Hrun']]]]]]|[_ [vs [_ Hrun']]]];
    rewrite Hrun' in Hrun; [discriminate|].
  injection Hrun as <-. eauto.
Qed.

Lemma send_loop_is_each_firstn fuel n : forall valist m,
  (n <= length valist)%nat ->
  sendData_loop fuel n valist m = sendByte_each fuel (firstn n valist) m.
Proof.
  induction n as [|n IH]; intros valist m Hn; [reflexivity|].
  destruct valist as [|arg valist]; [simpl in Hn; lia|].
  cbn [sendData_loop firstn sendByte_each]. unfold bind.
  destruct (i2cSendByte fuel (to_char arg) m); auto.
  apply IH. simpl in Hn. lia.
Qed.

(** A [sendByte_each] that is still polling is polling for one of its
    bytes: that byte and the ones before it have been stored, and the
    status has been compared for the ones before it only. *)
Lemma send_each_spinning fuel bytes : forall m m',
  sendByte_each fuel bytes m = Spinning m' ->
  exists j evs,
    (j < length bytes)%nat /\
    log m' = log m ++ evs /\
    writes_to TWDR evs = map u8 (firstn (S j) bytes) /\
    length (checks_of evs) = j.
Proof.
  induction bytes as [|b bytes IH]; intros m m' Hrun; [discriminate|].
  cbn [sendByte_each] in Hrun. apply bind_spinning in Hrun.
  destruct Hrun as [Hb|[a [m1 [Hb Hrest]]]].
  - rewrite send_byte_eq in Hb. apply wait_then_check_spinning in Hb.
    destruct Hb as [vs ->]. cbn [hw log].
    exists 0%nat. eexists. split; [simpl; lia|].
    rewrite <- app_assoc. split; [reflexivity|].
    rewrite writes_to_app, checks_of_app, polls_no_writes, polls_no_checks.
    cbn [writes_to checks_of reg_eqb app firstn map length].
    rewrite u8_to_char. auto.
  - rewrite send_byte_eq in Hb. apply wait_then_check_done in Hb.
    destruct Hb as [k [wait [_ [_ [Hw [_ ->]]]]]].
    destruct (IH _ _ Hrest) as [j [evs [Hj [Hlog [Hwr Hck]]]]].
    exists (S j). rewrite Hlog. cbn [hw log]. rewrite checked_log.
    eexists. rewrite <- !app_assoc. split; [simpl; lia|].
    split; [reflexivity|].
    rewrite !writes_to_app, !checks_of_app, !length_app.
    rewrite (wait_no_writes wait TWDR Hw), (wait_no_checks wait Hw).
    cbn [writes_to checks_of reg_eqb app length].
    rewrite Hwr, Hck, u8_to_char. split; reflexivity.
Qed.

(** X5: [i2cSendData] sends the first [argc] of its arguments and ignores
    the rest; with [argc] zero or negative it touches no register at all
    and returns at once. *)
Theorem send_data_sends_first_argc (fuel : nat) (argc : Z) (valist : list Z)
    (m : machine dev) :
  (argc <= 0 -> i2cSendData fuel argc valist m = Done tt m) /\
  ((Z.to_nat argc <= length valist)%nat ->
   i2cSendData fuel argc valist m =
   sendByte_each fuel (firstn (Z.to_nat argc) valist) m).
Proof.
  unfold i2cSendData. split.
  - intros Hargc. replace (Z.to_nat argc) with 0%nat by lia. reflexivity.
  - apply send_loop_is_each_firstn.
Qed.

(** X6: an [i2cSendData] call that hangs hangs on one byte: that byte and
    all earlier ones have been stored into the data register, in order, no
    later byte has, and the status has been compared once for each earlier
    byte. *)
Theorem send_data_hang_stops_sequence (fuel : nat) (bytes : list Z)
    (m m' : machine dev) :
  i2cSendData fuel (Z.of_nat (length bytes)) bytes m = Spinning m' ->
  exists j evs,
    (j < length bytes)%nat /\
    log m' = log m ++ evs /\
    writes_to TWDR evs = map u8 (firstn (S j) bytes) /\
    length (checks_of evs) = j.
Proof.
  unfold i2cSendData. rewrite Nat2Z.id, send_data_is_each.
  apply send_each_spinning.
Qed.

End Arguments.

(** ** The footprint of a client's calls *)

Lemma footprint_control_writes evs :
  forallb driver_event evs = true ->
  forall v, In v (writes_to TWCR evs) -> v = 0xA4 \/ v = 0x84 \/ v = 0x94.
Proof.
  induction evs as [|e evs IH]; intros Hall v Hin; [destruct Hin|].
  cbn [forallb] in Hall. apply andb_true_iff in Hall. destruct Hall as [He Hall].
  destruct e as [r x|r x|c s]; cbn [writes_to] in Hin; try (now apply IH).
  destruct r; cbn [reg_eqb] in Hin; try (now apply IH); try discriminate He.
  destruct Hin as [<-|Hin]; [|now apply IH].
  cbn [driver_event] in He.
  apply orb_true_iff in He. destruct He as [He|He];
    [apply orb_true_iff in He; destruct He as [He|He]|];
    apply Z.eqb_eq in He; auto.
Qed.

Lemma footprint_reads evs :
  forallb driver_event evs = true ->
  forall r, In r (reads_of evs) -> r = TWCR \/ r = TWSR.
Proof.
  induction evs as [|e evs IH]; intros Hall r Hin; [destruct Hin|].
  cbn [forallb] in Hall. apply andb_true_iff in Hall. destruct Hall as [He Hall].
  destruct e as [r' x|r' x|c s]; cbn [reads_of] in Hin; try (now apply IH).
  destruct Hin as [<-|Hin]; [|now apply IH].
  destruct r'; try discriminate He; auto.
Qed.

Section Footprint.
Context {dev : Type} {Pd : Peripheral dev} {Bd : Build} {Th : TwiHeader}.

Lemma within_footprint_refl (m : machine dev) : within_footprint m m.
Proof. exists []. now rewrite app_nil_r. Qed.

Lemma within_footprint_trans (m1 m2 m3 : machine dev) :
  within_footprint m1 m2 -> within_footprint m2 m3 -> within_footprint m1 m3.
Proof.
  intros [evs1 [H1 F1]] [evs2 [H2 F2]]. exists (evs1 ++ evs2).
  rewrite H2, H1, <- app_assoc, forallb_app, F1, F2. auto.
Qed.

Lemma within_footprint_event (m : machine dev) d e :
  driver_event e = true -> within_footprint m (Machine d (log m ++ [e])).
Proof. intros He. exists [e]. simpl. rewrite He. auto. Qed.

Ltac in_sequence :=
  apply (respects_bind within_footprint within_footprint_trans).

Ltac at_end :=
  apply (respects_ret within_footprint within_footprint_refl).

Lemma footprint_poll : respects within_footprint (sfr_read TWCR).
Proof.
  intros m. rewrite sfr_read_eq. now apply within_footprint_event.
Qed.

Lemma footprint_status : respects within_footprint (sfr_read TWSR).
Proof.
  intros m. rewrite sfr_read_eq. now apply within_footprint_event.
Qed.

Lemma footprint_data v : respects within_footprint (sfr_write TWDR v).
Proof.
  intros m. apply within_footprint_event. cbn [driver_event].
  pose proof (u8_range v). apply andb_true_iff.
  split; [apply Z.leb_le|apply Z.ltb_lt]; lia.
Qed.

Lemma footprint_control v :
  v = 0xA4 \/ v = 0x84 \/ v = 0x94 ->
  respects within_footprint (sfr_write TWCR v).
Proof.
  intros Hv m. apply within_footprint_event.
  destruct Hv as [->|[->| ->]]; reflexivity.
Qed.

Lemma footprint_await fuel : respects within_footprint (i2cAwaitCompletion fuel).
Proof.
  induction fuel as [|fuel IH]; [intros m; apply within_footprint_refl|].
  cbn [i2cAwaitCompletion]. in_sequence; [apply footprint_poll|].
  intros twcr. destruct (Z.land twcr 128 =? 0); [exact IH|at_end].
Qed.

Lemma footprint_check e : respects within_footprint (i2cCheckStatus e).
Proof.
  unfold i2cCheckStatus. in_sequence; [apply footprint_status|]. intros twsr.
  in_sequence; [|intros; at_end].
  intros m. now apply within_footprint_event.
Qed.

Lemma footprint_tail fuel e : respects within_footprint (wait_then_check fuel e).
Proof.
  in_sequence; [apply footprint_await|]. intros _.
  in_sequence; [apply footprint_check|]. intros; at_end.
Qed.

Lemma footprint_send_byte fuel byte :
  respects within_footprint (i2cSendByte fuel byte).
Proof.
  unfold i2cSendByte. in_sequence; [apply footprint_data|intros _].
  in_sequence; [apply footprint_control; auto|intros _].
  apply footprint_tail.
Qed.

Lemma footprint_send_loop fuel n : forall valist,
  respects within_footprint (sendData_loop fuel n valist).
Proof.
  induction n as [|n IH]; intros valist; [at_end|].
  destruct valist as [|arg valist]; [intros m; exact I|].
  cbn [sendData_loop]. in_sequence; [apply footprint_send_byte|].
  intros _. apply IH.
Qed.

Lemma footprint_exec fuel c : respects within_footprint (exec fuel c).
Proof.
  destruct c; cbn [exec].
  - unfold i2cStart. in_sequence; [apply footprint_control; auto|intros _].
    apply footprint_tail.
  - unfold i2cSendAddress.
    in_sequence; [destruct (negb (rw =? 0)); apply footprint_data|intros _].
    in_sequence; [apply footprint_control; auto|intros _].
    apply footprint_tail.
  - apply footprint_await.
  - in_sequence; [apply footprint_check|intros; at_end].
  - apply footprint_send_byte.
  - apply footprint_send_loop.
  - apply footprint_control. auto.
Qed.

Lemma footprint_exec_all fuel cs : respects within_footprint (exec_all fuel cs).
Proof.
  induction cs as [|c cs IH]; [at_end|].
  cbn [exec_all]. in_sequence; [apply footprint_exec|intros _; exact IH].
Qed.

(** X7: whatever a client calls after [i2cInit], and whether the last call
    returns or hangs, every value written to the control register is one of
    [0xA4], [0x84] and [0x94]: the completion flag and the enable bit are
    always written as 1, the interrupt-enable and acknowledge-enable bits
    always as 0, and start and stop are never requested together. *)
Theorem control_writes_are_three_patterns (fuel : nat) (cs : list call)
    (m : machine dev) :
  match exec_all fuel cs m with
  | Done _ m' | Spinning m' =>
      exists evs,
        log m' = log m ++ evs /\
        forall v, In v (writes_to TWCR evs) ->
          (v = 0xA4 \/ v = 0x84 \/ v = 0x94) /\
          Z.testbit v TWINT = true /\ Z.testbit v TWEN = true /\
          Z.testbit v TWIE = false /\ Z.testbit v TWEA = false /\
          Z.testbit v TWSTA && Z.testbit v TWSTO = false
  | Undefined => True
  end.
Proof.
  pose proof (footprint_exec_all fuel cs m) as Hfp.
  destruct (exec_all fuel cs m) as [a m'|m'|]; auto;
    destruct Hfp as [evs [Hlog Hall]]; exists evs; (split; [exact Hlog|]);
    intros v Hin;
    destruct (footprint_control_writes evs Hall v Hin) as [->|[->| ->]];
    repeat split; auto.
Qed.

(** X8: the only registers these operations ever read are the control
    register and the status register; the data register is never read, so
    nothing a slave sends can reach the caller through this driver. *)
Theorem reads_only_control_and_status (fuel : nat) (cs : list call)
    (m : machine dev) :
  match exec_all fuel cs m with
  | Done _ m' | Spinning m' =>
      exists evs,
        log m' = log m ++ evs /\
        (forall r, In r (reads_of evs) -> r = TWCR \/ r = TWSR) /\
        ~ In TWDR (reads_of evs)
  | Undefined => True
  end.
Proof.
  pose proof (footprint_exec_all fuel cs m) as Hfp.
  destruct (exec_all fuel cs m) as [a m'|m'|]; auto;
    destruct Hfp as [evs [Hlog Hall]]; exists evs; (split; [exact Hlog|]);
    (split; [apply footprint_reads, Hall|]); intros Hin;
    destruct (footprint_reads evs Hall TWDR Hin); discriminate.
Qed.

End Footprint.

(** ** Whole sequences of calls *)

Section Sequences.
Context {dev : Type} {Pd : Peripheral dev} {Bd : Build} {Th : TwiHeader}.

Lemma tail_returns fuel e (m : machine dev) k :
  first_set_at k (hw m) -> (k < fuel)%nat ->
  exists m', wait_then_check fuel e m = Done tt m'.
Proof.
  intros Hfs Hk.
  destruct (wait_then_check_run fuel e m)
    as [[k' [wait [_ [_ [_ [_ Hrun]]]]]]|[Hclear _]]; [eauto|].
  destruct Hfs as [Hset _]. rewrite Hclear in Hset by exact Hk. discriminate.
Qed.

Lemma responsive_tail n fuel e v d l :
  responsive n -> (n <= fuel)%nat ->
  exists m', wait_then_check fuel e (Machine (store TWCR v d) l) = Done tt m'.
Proof.
  intros Hresp Hn. destruct (Hresp v d) as [k [Hk Hfs]].
  apply (tail_returns fuel e _ k); [exact Hfs|lia].
Qed.

Lemma responsive_send_byte n fuel byte (m : machine dev) :
  responsive n -> (n <= fuel)%nat ->
  exists m', i2cSendByte fuel byte m = Done tt m'.
Proof.
  intros Hresp Hn. rewrite send_byte_eq. now apply (responsive_tail n).
Qed.

Lemma responsive_send_loop n fuel k : forall valist (m : machine dev),
  responsive n -> (n <= fuel)%nat -> (k <= length valist)%nat ->
  exists m', sendData_loop fuel k valist m = Done tt m'.
Proof.
  induction k as [|k IH]; intros valist m Hresp Hn Hk; [exists m; reflexivity|].
  destruct valist as [|arg valist]; [simpl in Hk; lia|].
  cbn [sendData_loop]. unfold bind.
  destruct (responsive_send_byte n fuel (to_char arg) m Hresp Hn) as [m1 ->].
  apply IH; auto. simpl in Hk. lia.
Qed.

Lemma responsive_exec n fuel c (m : machine dev) :
  responsive n -> (n <= fuel)%nat ->
  c <> CallAwaitCompletion ->
  (forall argc valist, c = CallSendData argc valist ->
                       (Z.to_nat argc <= length valist)%nat) ->
  exists m', exec fuel c m = Done tt m'.
Proof.
  intros Hresp Hn Hc Hargs. destruct c; cbn [exec].
  - rewrite start_eq. now apply (responsive_tail n).
  - rewrite send_address_eq. now apply (responsive_tail n).
  - contradiction.
  - unfold bind. rewrite check_status_eq. eexists. reflexivity.
  - now apply (responsive_send_byte n).
  - apply (responsive_send_loop n); auto.
  - eexists. reflexivity.
Qed.

(** X9: on a peripheral that reports every command complete within [n]
    polls, any sequence of calls to [i2cStart], [i2cSendAddress],
    [i2cCheckStatus], [i2cSendByte], [i2cSendData] and [i2cStop] returns,
    whatever the status codes are, provided no [i2cSendData] call passes
    fewer arguments than it announces: the polling loop is the only place
    where the driver can hang. *)
Theorem responsive_sequence_returns (n fuel : nat) (cs : list call)
    (m : machine dev) :
  responsive n -> (n <= fuel)%nat ->
  enough_arguments cs -> ~ In CallAwaitCompletion cs ->
  exists m', exec_all fuel cs m = Done tt m'.
Proof.
  intros Hresp Hn. revert m.
  induction cs as [|c cs IH]; intros m Hargs Hno; [exists m; reflexivity|].
  cbn [exec_all]. unfold bind.
  destruct (responsive_exec n fuel c m Hresp Hn) as [m1 ->].
  - intros ->. apply Hno. now left.
  - intros argc valist ->. apply Hargs. now left.
  - apply IH.
    + intros argc valist Hin. apply Hargs. now right.
    + intros Hin. apply Hno. now right.
Qed.

Lemma tail_done_writes fuel e (m : machine dev) a m' :
  wait_then_check fuel e m = Done a m' ->
  exists evs, log m' = log m ++ evs /\ writes_of evs = [].
Proof.
  intros Hrun. apply wait_then_check_done in Hrun.
  destruct Hrun as [k [wait [_ [_ [Hw [_ ->]]]]]].
  unfold checked. cbn [hw log]. rewrite <- app_assoc. eexists.
  split; [reflexivity|].
  rewrite writes_of_app, (wait_writes_nothing wait Hw). reflexivity.
Qed.

Lemma send_byte_done_writes fuel byte (m : machine dev) a m' :
  i2cSendByte fuel byte m = Done a m' ->
  exists evs, log m' = log m ++ evs /\ writes_of evs = transmit (u8 byte).
Proof.
  rewrite send_byte_eq. intros Hrun. apply tail_done_writes in Hrun.
  destruct Hrun as [evs [Hlog Hw]]. cbn [log] in Hlog.
  rewrite Hlog, <- app_assoc. eexists. split; [reflexivity|].
  rewrite writes_of_app, Hw. reflexivity.
Qed.

Lemma send_loop_done_writes fuel n : forall valist (m : machine dev) a m',
  sendData_loop fuel n valist m = Done a m' ->
  exists evs,
    log m' = log m ++ evs /\
    writes_of evs = flat_map (fun arg => transmit (u8 arg)) (firstn n valist).
Proof.
  induction n as [|n IH]; intros valist m a m' Hrun.
  - injection Hrun as _ <-. exists []. now rewrite app_nil_r.
  - destruct valist as [|arg valist]; [discriminate|].
    cbn [sendData_loop] in Hrun. apply bind_done in Hrun.
    destruct Hrun as [a1 [m1 [Hb Hrest]]].
    apply send_byte_done_writes in Hb. destruct Hb as [evs1 [Hlog1 Hw1]].
    destruct (IH _ _ _ _ Hrest) as [evs2 [Hlog2 Hw2]].
    exists (evs1 ++ evs2). rewrite Hlog2, Hlog1, <- app_assoc.
    split; [reflexivity|].
    rewrite writes_of_app, Hw1, Hw2, u8_to_char. reflexivity.
Qed.

Lemma exec_done_writes fuel c (m : machine dev) a m' :
  exec fuel c m = Done a m' ->
  exists evs, log m' = log m ++ evs /\ writes_of evs = issued c.
Proof.
  destruct c; cbn [exec issued]; intros Hrun.
  - rewrite start_eq in Hrun. apply tail_done_writes in Hrun.
    destruct Hrun as [evs [Hlog Hw]]. cbn [log] in Hlog.
    rewrite Hlog, <- app_assoc. eexists. split; [reflexivity|].
    rewrite writes_of_app, Hw. reflexivity.
  - rewrite send_address_eq in Hrun. apply tail_done_writes in Hrun.
    destruct Hrun as [evs [Hlog Hw]]. cbn [log] in Hlog.
    rewrite Hlog, <- app_assoc. eexists. split; [reflexivity|].
    rewrite writes_of_app, Hw. reflexivity.
  - apply await_done in Hrun.
    destruct Hrun as [k [evs [_ [_ [Hw [_ ->]]]]]].
    exists evs. split; [reflexivity|]. now apply wait_writes_nothing.
  - unfold bind in Hrun. rewrite check_status_eq in Hrun.
    injection Hrun as _ <-. eexists. split; reflexivity.
  - apply (send_byte_done_writes fuel byte m a m' Hrun).
  - apply (send_loop_done_writes fuel (Z.to_nat argc) valist m a m' Hrun).
  - injection Hrun as _ <-. eexists. split; reflexivity.
Qed.

(** X10: when a sequence of calls returns, the register writes it has made
    are exactly the writes each call is written to make, call after call in
    program order: one control pattern for a start or a stop, the byte and
    the transmit pattern for an address or a data byte, that pair once per
    sent argument for [i2cSendData], and nothing for a wait or a status
    check.  Neither the number of polls nor any status changes them. *)
Theorem returned_sequence_writes (fuel : nat) (cs : list call) :
  forall (m : machine dev) a m',
    exec_all fuel cs m = Done a m' ->
    exists evs, log m' = log m ++ evs /\ writes_of evs = flat_map issued cs.
Proof.
  induction cs as [|c cs IH]; intros m a m' Hrun.
  - injection Hrun as _ <-. exists []. now rewrite app_nil_r.
  - cbn [exec_all] in Hrun. apply bind_done in Hrun.
    destruct Hrun as [a1 [m1 [Hc Hrest]]].
    apply exec_done_writes in Hc. destruct Hc as [evs1 [Hlog1 Hw1]].
    destruct (IH _ _ _ Hrest) as [evs2 [Hlog2 Hw2]].
    exists (evs1 ++ evs2). rewrite Hlog2, Hlog1, <- app_assoc.
    split; [reflexivity|].
    rewrite writes_of_app, Hw1, Hw2. reflexivity.
Qed.

End Sequences.

(** ** On the bench again *)

(** A 1 MHz processor clock is below eight times the header's bus clock:
    the subtraction wraps and 254 lands in the divisor register. *)
Lemma init_1MHz_underflows :
  (0 <= @F_CPU (i2c_h 1000000) < 2 ^ 32 /\
   0 < @F_SCL (i2c_h 1000000) /\
   8 * @F_SCL (i2c_h 1000000) < 2 ^ 32) /\
  @i2cInit bench _ (i2c_h 1000000) (bench_init [] 0) =
  Done tt (Machine (Bench 254 0 0 0 [] 0) [EvWrite TWSR 0; EvWrite TWBR 254]).
Proof.
  split; [vm_compute; repeat split; first [reflexivity | discriminate]|].
  refine (proj1 (@init_writes_quotient_mod_256 bench _ (i2c_h 1000000)
                   (bench_init [] 0) _ _ _));
    vm_compute; repeat split; first [reflexivity | discriminate].
Defined.

(** [0x19] is no multiple of 8: it does not match a status of [0x18]. *)
Lemma check_status_0x19_fails :
  0x19 mod 8 <> 0 /\
  i2cCheckStatus 0x19 (bench_init [] 0x18) =
  Done 0 (Machine (Bench 0 0 0 0 [] 0x18) [EvRead TWSR 0x18; EvCheck 0x19 0x18]).
Proof.
  split; [vm_compute; discriminate|].
  refine ((fun H => H) (check_status_never_matches (bench_init [] 0x18) 0x19 _)).
  right. right. vm_compute. discriminate.
Defined.

(** [0xF8] against a status register that holds [0xF8]: no match where
    [char] is signed, a match where it is unsigned. *)
Lemma check_status_0xF8_by_signedness :
  128 <= 0xF8 < 256 /\
  i2cCheckStatus (@to_char (i2c_h 16000000) 0xF8) (bench_init [] 0xF8) =
  Done 0 (checked (-8) (bench_init [] 0xF8)) /\
  exists r,
    i2cCheckStatus (@to_char (i2c_h_unsigned_char 16000000) 0xF8)
      (bench_init [] 0xF8) = Done r (checked 0xF8 (bench_init [] 0xF8)) /\
    (r = 1 <-> Z.land (u8 0xF8) 0xF8 = 0xF8).
Proof.
  split; [lia|]. split.
  - apply (proj1 (@check_status_high_code bench _ (i2c_h 16000000)
                    (bench_init [] 0xF8) 0xF8 ltac:(lia))).
    reflexivity.
  - exact (proj2 (@check_status_high_code bench _ (i2c_h_unsigned_char 16000000)
                    (bench_init [] 0xF8) 0xF8 ltac:(lia)) eq_refl).
Defined.

(** Three bytes on a bench that completes the first transfer only. *)
Lemma send_data_hangs_on_second_byte :
  exists m' j evs,
    @i2cSendData bench _ (i2c_h 16000000) avr_libc 3
      (Z.of_nat (length [0x10; 0x20; 0x30])) [0x10; 0x20; 0x30]
      (bench_init [0x80] 0x28) = Spinning m' /\
    (j < length [0x10; 0x20; 0x30])%nat /\
    log m' = [] ++ evs /\
    writes_to TWDR evs = map u8 (firstn (S j) [0x10; 0x20; 0x30]) /\
    length (checks_of evs) = j.
Proof.
  assert (E : exists m',
             @i2cSendData bench _ (i2c_h 16000000) avr_libc 3
               (Z.of_nat (length [0x10; 0x20; 0x30])) [0x10; 0x20; 0x30]
               (bench_init [0x80] 0x28) = Spinning m')
    by (vm_compute; eexists; reflexivity).
  destruct E as [m' E].
  destruct (@send_data_hang_stops_sequence bench _ (i2c_h 16000000) avr_libc 3
              [0x10; 0x20; 0x30] (bench_init [0x80] 0x28) m' E)
    as [j [evs Hrest]].
  exists m', j, evs. split; [exact E|exact Hrest].
Defined.

Lemma eager_bench_responsive : @responsive bench eager_bench 1.
Proof.
  intros v d. exists 0%nat. split; [lia|]. split; [|intros j Hj; lia].
  unfold flag_at, TWINT. cbn [after_polls load eager_bench eager_load fst].
  rewrite u8_land_ones, Z.land_spec, Z.lor_spec.
  change (Z.testbit 128 7) with true. rewrite orb_true_r. reflexivity.
Qed.

(** A whole transaction on the eager bench, one poll of fuel. *)
Lemma transaction_returns_on_eager_bench :
  exists m',
    @exec_all bench eager_bench (i2c_h 16000000) avr_libc 1
      [CallStart; CallSendAddress 0x3C 1; CallSendData 2 [0x00; 0xAF];
       CallCheckStatus 0x28; CallStop]
      (bench_init [] 0x28) = Done tt m'.
Proof.
  apply (@responsive_sequence_returns bench eager_bench (i2c_h 16000000)
           avr_libc 1 1); [apply eager_bench_responsive|lia| |].
  - intros argc valist Hin. simpl in Hin.
    destruct Hin as [Hin|[Hin|[Hin|[Hin|[Hin|[]]]]]]; try discriminate Hin.
    injection Hin as <- <-. simpl. lia.
  - simpl. intros [Hin|[Hin|[Hin|[Hin|[Hin|[]]]]]]; discriminate Hin.
Defined.

(** The writes of a start, an address, one byte and a stop. *)
Lemma transaction_writes_on_bench :
  exists m' evs,
    @exec_all bench _ (i2c_h 16000000) avr_libc 5
      [CallStart; CallSendAddress 0x3C 1; CallSendByte 0xAF; CallStop]
      (bench_init [0; 0x80; 0x80; 0; 0; 0x80] 0x20) = Done tt m' /\
    log m' = [] ++ evs /\
    writes_of evs =
      [(TWCR, 0xA4); (TWDR, 0x78); (TWCR, 0x84); (TWDR, 0xAF); (TWCR, 0x84);
       (TWCR, 0x94)].
Proof.
  assert (E : exists m',
             @exec_all bench _ (i2c_h 16000000) avr_libc 5
               [CallStart; CallSendAddress 0x3C 1; CallSendByte 0xAF; CallStop]
               (bench_init [0; 0x80; 0x80; 0; 0; 0x80] 0x20) = Done tt m')
    by (vm_compute; eexists; reflexivity).
  destruct E as [m' E].
  destruct (@returned_sequence_writes bench _ (i2c_h 16000000) avr_libc 5
              [CallStart; CallSendAddress 0x3C 1; CallSendByte 0xAF; CallStop]
              (bench_init [0; 0x80; 0x80; 0; 0; 0x80] 0x20) tt m' E)
    as [evs [Hlog Hw]].
  exists m', evs. split; [exact E|]. split; [exact Hlog|exact Hw].
Defined.


(** * The status check as callers reach it *)

Section StatusCall.
Context {dev : Type} {Pd : Peripheral dev} {Bd : Build}.

(** C5 (as amended): for a status code from [0x00] to [0xFF] passed to
    [i2cCheckStatus], and every status-register value: where the code is
    below [0x80], or plain [char] is unsigned, the call reads the status
    register once, returns 1 exactly when the register masked with [0xF8]
    (its top five bits) equals the code and 0 otherwise, and writes to no
    register; where the code is [0x80] or more and plain [char] is signed,
    the [char] parameter receives the code less 256 and the call returns 0
    whatever the status register holds. *)
Theorem check_status_call_compares_top5 (m : machine dev) (code : Z) :
  0 <= code < 256 ->
  (code < 128 \/ char_signed = false ->
   exists twsr r,
     twsr = u8 (fst (load TWSR (hw m))) /\
     i2cCheckStatus (to_char code) m =
     Done r (Machine (snd (load TWSR (hw m)))
                     (log m ++ [EvRead TWSR twsr;
                                EvCheck code (Z.land twsr 0xF8)])) /\
     Z.land twsr 0xF8 = Z.shiftl (Z.shiftr twsr 3) 3 /\
     (r = 1 <-> Z.land twsr 0xF8 = code) /\
     (r = 0 <-> Z.land twsr 0xF8 <> code) /\
     forall r', writes_to r' [EvRead TWSR twsr;
                              EvCheck code (Z.land twsr 0xF8)] = []) /\
  (128 <= code -> char_signed = true ->
   exists twsr,
     twsr = u8 (fst (load TWSR (hw m))) /\
     i2cCheckStatus (to_char code) m =
     Done 0 (Machine (snd (load TWSR (hw m)))
                     (log m ++ [EvRead TWSR twsr;
                                EvCheck (code - 256) (Z.land twsr 0xF8)]))).
Proof.
  intros Hcode. split.
  - intros Hfits.
    assert (Hc : to_char code = code).
    { destruct Hfits as [Hlow|Hun]; [apply to_char_small; lia|].
      unfold to_char. rewrite Hun. apply Z.mod_small. exact Hcode. }
    rewrite Hc. apply check_status_compares_top5.
  - intros Hhigh Hsigned.
    assert (Hc : to_char code = code - 256).
    { unfold to_char. rewrite Hsigned.
      rewrite <- (Z_mod_plus_full (code + 128) (-1) 256).
      rewrite Z.mod_small; lia. }
    rewrite Hc. eexists. split; [reflexivity|].
    apply check_status_mismatch.
    destruct (masked_status_shape (u8 (fst (load TWSR (hw m)))) (u8_range _))
      as [[H0 _] _]. lia.
Qed.

End StatusCall.

(** C5 as stated fails where plain [char] is signed: the status register
    holds [0xF8], its top five bits equal the code [0xF8], and the call
    [i2cCheckStatus(0xF8)] returns 0. *)
Lemma check_status_0xF8_call_fails :
  Z.land (u8 (fst (load TWSR (hw (bench_init [] 0xF8))))) 0xF8 = 0xF8 /\
  i2cCheckStatus (@to_char (i2c_h 16000000) 0xF8) (bench_init [] 0xF8) =
  Done 0 (Machine (Bench 0 0 0 0 [] 0xF8) [EvRead TWSR 0xF8; EvCheck (-8) 0xF8]).
Proof. split; reflexivity. Qed.

(** [i2cCheckStatus(0x28)] against a status register that reads [0x2B]
    (status [0x28], prescaler bits 3). *)
Lemma check_status_0x28_matches :
  (0 <= 0x28 < 256 /\ 0x28 < 128) /\
  exists r,
    i2cCheckStatus (@to_char (i2c_h 16000000) 0x28)
      (Machine (Bench 0 0x03 0 0 [] 0x28) []) =
    Done r (Machine (Bench 0 0x03 0 0 [] 0x28)
                    [EvRead TWSR 0x2B; EvCheck 0x28 0x28]) /\
    r = 1.
Proof.
  split; [lia|].
  destruct (@check_status_call_compares_top5 bench _ (i2c_h 16000000)
              (Machine (Bench 0 0x03 0 0 [] 0x28) []) 0x28) as [Hlow _]; [lia|].
  destruct Hlow as [twsr [r [Htw [Hrun [_ [Hiff _]]]]]]; [left; lia|].
  exists r. rewrite Htw in Hrun, Hiff. split; [exact Hrun|].
  apply Hiff. reflexivity.
Defined.
